(** * Backlog.md command line: id allocation, dependency validation,
      grouped task listing and the board pipeline.

    A shallow embedding of [src/cli.ts].  The functions of the CLI are
    translated one by one; the file-system, git and console effects they
    perform are made explicit as records of results and as an output log.

    Conventions of the embedding.
    - A JavaScript string is a [string]; each [ascii] stands for one code
      unit in the range 0..255.
    - A JavaScript [Number] holding an integer is the [Z] it denotes; [NaN]
      is [None].  [parseInt] and [+ 1] round to the nearest double, as the
      code does: they are exact up to 2^53 and lose digits beyond.
    - A JavaScript [Map] whose iteration order is observable is an
      association list in insertion order.
    - A rejected promise or a thrown exception is the [Throw] case of
      [Result]. *)

From Stdlib Require Import ZArith Ascii String List Lia Permutation DecimalString
  DecimalPos.
From stdpp Require Import base option list strings gmap.

(** ** JavaScript primitives used by the CLI *)

Module JS.

Inductive Result (A : Type) : Type :=
| Ok (a : A)
| Throw (e : string).
Arguments Ok {A} a.
Arguments Throw {A} e.

(** Sequencing of awaited calls inside a [try] block: the first rejection
    ends the block. *)
#[global] Instance Result_bind : MBind Result :=
  fun A B (k : A -> Result B) (r : Result A) =>
    match r with
    | Ok a => k a
    | Throw e => Throw e
    end.

(** [Promise.all] over an array of promises created by [arr.map(async ...)]:
    the results in array order, or the rejection. *)
Fixpoint promiseAll {A B : Type} (f : A -> Result B) (l : list A) : Result (list B) :=
  match l with
  | [] => Ok []
  | a :: rest =>
      b ← f a;
      bs ← promiseAll f rest;
      Ok (b :: bs)
  end.

(** Truthiness of a string ([Boolean(s)]): only the empty string is falsy. *)
Definition truthy (s : string) : bool :=
  match s with
  | EmptyString => false
  | String _ _ => true
  end.

(** Truthiness of a possibly undefined string, as in [process.env.DEBUG]. *)
Definition truthyOpt (o : option string) : bool :=
  match o with
  | Some s => truthy s
  | None => false
  end.

(** [s || d] on strings. *)
Definition orElse (s d : string) : string :=
  if truthy s then s else d.

(** [s.startsWith(p)]. *)
Definition startsWith (s p : string) : bool := String.prefix p s.

(** [s.slice(n)] for [0 <= n]. *)
Fixpoint slice (n : nat) (s : string) : string :=
  match n, s with
  | O, _ => s
  | S _, EmptyString => EmptyString
  | S k, String _ r => slice k r
  end.

(** [s.split(c)] for a one-character separator; never empty. *)
Fixpoint split (c : ascii) (s : string) : list string :=
  match s with
  | EmptyString => [EmptyString]
  | String a r =>
      if Ascii.eqb a c then EmptyString :: split c r
      else match split c r with
           | [] => [String a EmptyString]
           | h :: t => String a h :: t
           end
  end.

(** [arr[0]] of a string array, [undefined] rendered as the empty string
    (only ever used under [|| "0"]). *)
Definition first (l : list string) : string :=
  match l with
  | [] => EmptyString
  | h :: _ => h
  end.

(** White space and line terminators among the code units 0..255:
    TAB, LF, VT, FF, CR, SP and NBSP. *)
Definition isWhiteSpace (a : ascii) : bool :=
  let n := nat_of_ascii a in
  ((9 <=? n) && (n <=? 13)) || (n =? 32) || (n =? 160).

Fixpoint trimStart (s : string) : string :=
  match s with
  | EmptyString => EmptyString
  | String a r => if isWhiteSpace a then trimStart r else s
  end.

Fixpoint trimEnd (s : string) : string :=
  match s with
  | EmptyString => EmptyString
  | String a r =>
      match trimEnd r with
      | EmptyString => if isWhiteSpace a then EmptyString else String a EmptyString
      | r' => String a r'
      end
  end.

(** [s.trim()]. *)
Definition trim (s : string) : string := trimEnd (trimStart s).

(** The regular expression class [\d]. *)
Definition isDigit (a : ascii) : bool :=
  let n := nat_of_ascii a in (48 <=? n) && (n <=? 57).

(** The regular expression class [[\d.]]. *)
Definition isDigitOrDot (a : ascii) : bool :=
  isDigit a || Ascii.eqb a "."%char.

(** The longest prefix of [s] made of characters satisfying [p]: what a
    greedy [p+] or [p*] consumes. *)
Fixpoint takeWhile (p : ascii -> bool) (s : string) : string :=
  match s with
  | EmptyString => EmptyString
  | String a r => if p a then String a (takeWhile p r) else EmptyString
  end.

Definition digitValue (a : ascii) : Z := Z.of_nat (nat_of_ascii a) - 48.

(** The integer written by a string of decimal digits, most significant
    digit first, continuing from the accumulator [acc]. *)
Fixpoint digitsValue (acc : Z) (s : string) : Z :=
  match s with
  | EmptyString => acc
  | String a r => digitsValue (10 * acc + digitValue a) r
  end.

(** *** Numbers

    An integer-valued Number is the [Z] it denotes.  The Numbers are the
    integers [q * 2^e] with [q < 2^53] and below [2^1024]; +Infinity, to
    which every larger magnitude rounds, is represented by [2^1024] (and
    -Infinity by its opposite), so that the order of [Z] is the order of
    the Numbers. *)

(** [Number.MAX_SAFE_INTEGER]: up to it every integer is a Number. *)
Definition MAX_SAFE_INTEGER : Z := 2 ^ 53 - 1.

Definition infinity : Z := 2 ^ 1024.

(** The Number nearest to a non-negative integer: the 53 leading bits are
    kept and the rest is rounded to nearest, a tie going to the even
    significand. *)
Definition roundMagnitude (n : Z) : Z :=
  if (n <=? MAX_SAFE_INTEGER)%Z then n
  else
    let e := (Z.log2 n - 52)%Z in
    let q := Z.shiftr n e in
    let r := (n - Z.shiftl q e)%Z in
    let half := Z.shiftl 1 (e - 1) in
    let q' := if (r <? half)%Z || ((r =? half)%Z && Z.even q) then q else (q + 1)%Z in
    Z.min (Z.shiftl q' e) infinity.

(** The Number nearest to an integer. *)
Definition toNumber (n : Z) : Z :=
  if (n <? 0)%Z then (- roundMagnitude (- n))%Z else roundMagnitude n.

(** [Number.parseInt(s, 10)]: leading white space is skipped, one sign is
    accepted, then the longest run of decimal digits is read and rounded
    to a Number; [NaN] ([None]) when that run is empty. *)
Definition parseInt (s : string) : option Z :=
  let t := trimStart s in
  let '(sign, body) :=
    match t with
    | String "-" r => ((-1)%Z, r)
    | String "+" r => (1%Z, r)
    | _ => (1%Z, t)
    end in
  match takeWhile isDigit body with
  | EmptyString => None
  | ds => Some (toNumber (sign * digitsValue 0 ds))
  end.

(** [a + b] on Numbers of which at most one is infinite: the exact sum,
    rounded. *)
Definition add (a b : Z) : Z := toNumber (a + b).

(** [num > max] where [num] may be [NaN]: a comparison with [NaN] is
    false. *)
Definition gt (num : option Z) (max : Z) : bool :=
  match num with
  | Some n => (max <? n)%Z
  | None => false
  end.

(** The decimal digits of an integer. *)
Definition decimalText (n : Z) : string :=
  NilEmpty.string_of_int (Z.to_int n).

(** The [k]-digit numeral that, followed by zeros up to [d] digits, reads
    back as the Number [v]: of the two multiples of [10^(d-k)] around [v]
    those that round to [v], the closer one first and on a tie the even
    one. *)
Definition shortestAt (v d k : Z) : option Z :=
  let scale := (10 ^ (d - k))%Z in
  let lo := (v / scale)%Z in
  let hi := (lo + 1)%Z in
  let okLo := (roundMagnitude (lo * scale) =? v)%Z in
  let okHi := (hi <? 10 ^ k)%Z && (roundMagnitude (hi * scale) =? v)%Z in
  match okLo, okHi with
  | true, true =>
      let dLo := (v - lo * scale)%Z in
      let dHi := (hi * scale - v)%Z in
      if (dLo <? dHi)%Z || ((dLo =? dHi)%Z && Z.even lo) then Some lo else Some hi
  | true, false => Some lo
  | false, true => Some hi
  | false, false => None
  end.

(** The shortest such numeral, searched from [k] digits upwards, with its
    number of digits. *)
Fixpoint shortestFrom (fuel : nat) (v d k : Z) : Z * Z :=
  match fuel with
  | O => (v, d)
  | S fuel' =>
      match shortestAt v d k with
      | Some s => (s, k)
      | None => shortestFrom fuel' v d (k + 1)
      end
  end.

Fixpoint zeros (n : nat) : string :=
  match n with
  | O => EmptyString
  | S k => String "0" (zeros k)
  end.

(** [Number::toString] for a finite Number [v] above
    [MAX_SAFE_INTEGER]: the shortest numeral [s], of [k] digits, such that
    [s * 10^(n-k)] rounds to [v]; written out with [n - k] zeros when
    [n <= 21] and in exponent notation otherwise. *)
Definition largeText (v : Z) : string :=
  let d := Z.of_nat (String.length (decimalText v)) in
  let '(s, k, n) :=
    if (roundMagnitude (10 ^ d) =? v)%Z then (1%Z, 1%Z, (d + 1)%Z)
    else let '(s, k) := shortestFrom (Z.to_nat d) v d 1 in (s, k, d) in
  let digits := decimalText s in
  if (n <=? 21)%Z then digits +:+ zeros (Z.to_nat (n - k))
  else
    match digits with
    | EmptyString => EmptyString
    | String a EmptyString => String a ("e+" +:+ decimalText (n - 1))
    | String a rest => String a ("." +:+ rest +:+ "e+" +:+ decimalText (n - 1))
    end.

(** [String(n)] / [`${n}`] for an integer-valued Number [n].  Up to
    [MAX_SAFE_INTEGER] no shorter numeral rounds to [n], and the text is
    the decimal digits of [n]. *)
Definition numberToString (n : Z) : string :=
  if (Z.abs n <=? MAX_SAFE_INTEGER)%Z then decimalText n
  else (if (n <? 0)%Z then "-" else "") +:+
       (if (infinity <=? Z.abs n)%Z then "Infinity" else largeText (Z.abs n)).

End JS.

(** ** Data model *)

Inductive Priority : Type := high | medium | low.

(** The [Task] type of [types/index.ts], with the fields the CLI reads and
    writes. *)
Record Task : Type := mkTask {
  id : string;
  title : string;
  status : string;
  assignee : list string;
  createdDate : string;
  updatedDate : option string;
  labels : list string;
  dependencies : list string;
  description : string;
  parentTaskId : option string;
  priority : option Priority
}.

(** [core.filesystem]: the parsed tasks and drafts of the working copy. *)
Record FileSystem : Type := mkFileSystem {
  listTasks : list Task;
  listDrafts : list Task
}.

(** [core.gitOps]: what each git call answers during one invocation. *)
Record GitOps : Type := mkGitOps {
  fetch : JS.Result unit;
  listAllBranches : JS.Result (list string);
  listFilesInTree : string -> string -> JS.Result (list string)
}.

Record Core : Type := mkCore {
  filesystem : FileSystem;
  gitOps : GitOps
}.

(** A line written by [console.log] or [console.error]. *)
Inductive ConsoleLine : Type :=
| Log (text : string)
| Error (text : string).

(** ** Id allocation: [generateNextId] *)

(** [file.match(/task-([\d.]+)/)]: the capture group of the leftmost match,
    [None] when the pattern occurs nowhere in [file]. *)
Fixpoint matchTaskFile (file : string) : option string :=
  let here :=
    if JS.startsWith file "task-"
    then JS.takeWhile JS.isDigitOrDot (JS.slice 5 file)
    else EmptyString in
  match here with
  | String _ _ => Some here
  | EmptyString =>
      match file with
      | EmptyString => None
      | String _ rest => matchTaskFile rest
      end
  end.

(** The id a branch file contributes: [`task-${match[1]}`], or nothing. *)
Definition branchFileId (file : string) : option string :=
  match matchTaskFile file with
  | Some m => Some ("task-" +:+ m)
  | None => None
  end.

(** The body of the [try] block: fetch, enumerate the branches, list the
    files of every branch under [backlog/tasks] and collect their ids. *)
Definition remoteTaskIds (g : GitOps) : JS.Result (list string) :=
  _ ← fetch g;
  branches ← listAllBranches g;
  branchResults ←
    JS.promiseAll
      (fun branch : string =>
         files ← listFilesInTree g branch "backlog/tasks";
         JS.Ok (omap (M := list) branchFileId files))
      branches;
  JS.Ok (concat branchResults).

(** [id.match(/^task-(\d+)/)]: the capture group. *)
Definition matchTopLevel (taskId : string) : option string :=
  if JS.startsWith taskId "task-"
  then match JS.takeWhile JS.isDigit (JS.slice 5 taskId) with
       | EmptyString => None
       | ds => Some ds
       end
  else None.

(** One round of the top-level loop body: the new value of [max]. *)
Definition topLevelStep (max : Z) (taskId : string) : Z :=
  match matchTopLevel taskId with
  | Some m =>
      let num := JS.parseInt (JS.orElse m "0") in
      if JS.gt num max then default max num else max
  | None => max
  end.

(** One round of the subtask loop body: the new value of [max]. *)
Definition subtaskStep (prefix : string) (max : Z) (taskId : string) : Z :=
  if JS.startsWith taskId (prefix +:+ ".")
  then
    let rest := JS.slice (String.length prefix + 1) taskId in
    let num := JS.parseInt (JS.orElse (JS.first (JS.split "." rest)) "0") in
    if JS.gt num max then default max num else max
  else max.

(** [generateNextId(core, parent)], run with [process.env.DEBUG = debug]:
    the id returned and the lines written to the console. *)
Definition generateNextId (debug : option string) (core : Core)
    (parent : option string) : string * list ConsoleLine :=
  let tasks := listTasks (filesystem core) in
  let drafts := listDrafts (filesystem core) in
  let all := tasks ++ drafts in
  let '(allIds, console) :=
    match remoteTaskIds (gitOps core) with
    | JS.Ok ids => (ids, [])
    | JS.Throw error =>
        ([], if JS.truthyOpt debug
             then [Error ("Could not fetch remote task IDs: " +:+ error)]
             else [])
    end in
  if JS.truthyOpt parent then
    let parent := default EmptyString parent in
    let prefix := if JS.startsWith parent "task-" then parent else "task-" +:+ parent in
    let max := fold_left (subtaskStep prefix) (map id tasks) 0%Z in
    let max := fold_left (subtaskStep prefix) allIds max in
    (prefix +:+ "." +:+ JS.numberToString (JS.add max 1), console)
  else
    let max := fold_left topLevelStep (map id all) 0%Z in
    let max := fold_left topLevelStep allIds max in
    ("task-" +:+ JS.numberToString (JS.add max 1), console).

(** ** Dependencies of a new task *)

(** The value commander hands over for an option: absent, one string, or
    the array built by the accumulating option parser. *)
Inductive OptionValue : Type :=
| Undefined
| Single (s : string)
| Multiple (l : list string).

Definition optionTruthy (v : OptionValue) : bool :=
  match v with
  | Undefined => false
  | Single s => JS.truthy s
  | Multiple _ => true
  end.

(** [a || b] on option values. *)
Definition optionOr (a b : OptionValue) : OptionValue :=
  if optionTruthy a then a else b.

(** [dep.startsWith("task-") ? dep : `task-${dep}`]. *)
Definition withTaskPrefix (dep : string) : string :=
  if JS.startsWith dep "task-" then dep else "task-" +:+ dep.

Definition normalizeDependencies (dependencies : OptionValue) : list string :=
  if negb (optionTruthy dependencies) then []
  else match dependencies with
       | Multiple l =>
           map withTaskPrefix
             (List.filter JS.truthy
                (flat_map (fun dep => map JS.trim (JS.split "," dep)) l))
       | Single s =>
           map withTaskPrefix
             (List.filter JS.truthy (map JS.trim (JS.split "," s)))
       | Undefined => []
       end.

(** [validateDependencies(dependencies, core)]: the pair
    [{ valid, invalid }]. *)
Definition validateDependencies (deps : list string) (core : Core)
    : list string * list string :=
  match deps with
  | [] => ([], [])
  | _ =>
      let tasks := listTasks (filesystem core) in
      let drafts := listDrafts (filesystem core) in
      let allTaskIds : gset string := list_to_set (map id tasks ++ map id drafts) in
      (List.filter (fun dep => bool_decide (dep ∈ allTaskIds)) deps,
       List.filter (fun dep => negb (bool_decide (dep ∈ allTaskIds))) deps)
  end.

(** The options of [task create]. *)
Record CreateOptions : Type := mkCreateOptions {
  opt_description : option string;
  opt_assignee : option string;
  opt_status : option string;
  opt_labels : option string;
  opt_priority : option string;
  opt_ac : OptionValue;
  opt_acceptanceCriteria : OptionValue;
  opt_plan : option string;
  opt_draft : bool;
  opt_parent : option string;
  opt_dependsOn : OptionValue;
  opt_dep : OptionValue
}.

(** [s.toLowerCase()] on the letters A..Z; enough to decide membership in
    [["high", "medium", "low"]], which no other character lower-cases
    into. *)
Definition toLowerAscii (a : ascii) : ascii :=
  let n := nat_of_ascii a in
  if (65 <=? n) && (n <=? 90) then ascii_of_nat (n + 32) else a.

Fixpoint toLowerCase (s : string) : string :=
  match s with
  | EmptyString => EmptyString
  | String a r => String (toLowerAscii a) (toLowerCase r)
  end.

Definition validPriority (p : string) : option Priority :=
  if String.eqb p "high" then Some high
  else if String.eqb p "medium" then Some medium
  else if String.eqb p "low" then Some low
  else None.

(** [x ? String(x) : d] for an optional string option. *)
Definition stringOr (o : option string) (d : string) : string :=
  if JS.truthyOpt o then default d o else d.

(** [buildTaskFromOptions(id, title, options)]; [today] is the date part
    of [new Date().toISOString()]. *)
Definition buildTaskFromOptions (today : string) (taskId taskTitle : string)
    (options : CreateOptions) : Task :=
  let normalizedParent :=
    if JS.truthyOpt (opt_parent options)
    then Some (withTaskPrefix (default EmptyString (opt_parent options)))
    else None in
  let deps := normalizeDependencies (optionOr (opt_dependsOn options) (opt_dep options)) in
  let validatedPriority :=
    if JS.truthyOpt (opt_priority options)
    then validPriority (toLowerCase (default EmptyString (opt_priority options)))
    else None in
  {| id := taskId;
     title := taskTitle;
     status := stringOr (opt_status options) "";
     assignee := if JS.truthyOpt (opt_assignee options)
                 then [default EmptyString (opt_assignee options)] else [];
     createdDate := today;
     updatedDate := None;
     labels := if JS.truthyOpt (opt_labels options)
               then List.filter JS.truthy
                      (map JS.trim (JS.split "," (default EmptyString (opt_labels options))))
               else [];
     dependencies := deps;
     description := stringOr (opt_description options) "";
     parentTaskId := normalizedParent;
     priority := validatedPriority |}.

(** The two functions of [markdown/serializer.ts] the create action
    imports; they only rewrite the description text. *)
Record Serializer : Type := mkSerializer {
  updateTaskAcceptanceCriteria : string -> list string -> string;
  updateTaskImplementationPlan : string -> string -> string
}.

(** What one run of a command leaves behind: the file written (a draft
    when the flag is [true]), the console lines and [process.exitCode]. *)
Record Outcome : Type := mkOutcome {
  created : option (bool * Task);
  console : list ConsoleLine;
  exitCode : option Z
}.

Definition withDependencies (t : Task) (deps : list string) : Task :=
  {| id := id t; title := title t; status := status t; assignee := assignee t;
     createdDate := createdDate t; updatedDate := updatedDate t;
     labels := labels t; dependencies := deps; description := description t;
     parentTaskId := parentTaskId t; priority := priority t |}.

Definition withDescription (t : Task) (text : string) : Task :=
  {| id := id t; title := title t; status := status t; assignee := assignee t;
     createdDate := createdDate t; updatedDate := updatedDate t;
     labels := labels t; dependencies := dependencies t; description := text;
     parentTaskId := parentTaskId t; priority := priority t |}.

(** [arr.join(", ")]. *)
Fixpoint join (sep : string) (l : list string) : string :=
  match l with
  | [] => EmptyString
  | [s] => s
  | s :: rest => s +:+ sep +:+ join sep rest
  end.

(** The acceptance criteria handed to the serializer. *)
Definition criteriaOf (v : OptionValue) : list string :=
  List.filter JS.truthy
    match v with
    | Multiple l => flat_map (fun c => map JS.trim (JS.split "," c)) l
    | Single s => map JS.trim (JS.split "," s)
    | Undefined => []
    end.

(** The action of [task create <title>].  [filepath] is what
    [core.createTask] / [core.createDraft] answer for the file written. *)
Definition taskCreate (debug : option string) (today : string) (ser : Serializer)
    (filepath : bool -> Task -> string) (core : Core)
    (taskTitle : string) (options : CreateOptions) : Outcome :=
  let '(taskId, out) := generateNextId debug core (opt_parent options) in
  let task := buildTaskFromOptions today taskId taskTitle options in
  let checked :=
    match dependencies task with
    | [] => inl task
    | _ =>
        let '(valid, invalid) := validateDependencies (dependencies task) core in
        match invalid with
        | [] => inl (withDependencies task valid)
        | _ => inr invalid
        end
    end in
  match checked with
  | inr invalid =>
      {| created := None;
         console := out ++
           [Error ("Error: The following dependencies do not exist: " +:+ join ", " invalid);
            Error "Please create these tasks first or check the task IDs."];
         exitCode := Some 1%Z |}
  | inl task =>
      let acceptanceCriteria := optionOr (opt_ac options) (opt_acceptanceCriteria options) in
      let task :=
        if optionTruthy acceptanceCriteria
        then withDescription task
               (updateTaskAcceptanceCriteria ser (description task) (criteriaOf acceptanceCriteria))
        else task in
      let task :=
        if JS.truthyOpt (opt_plan options)
        then withDescription task
               (updateTaskImplementationPlan ser (description task)
                  (default EmptyString (opt_plan options)))
        else task in
      {| created := Some (opt_draft options, task);
         console := out ++
           [Log ((if opt_draft options then "Created draft " else "Created task ") +:+ taskId);
            Log ("File: " +:+ filepath (opt_draft options) task)];
         exitCode := None |}
  end.

(** ** Grouped task list: [task list --plain] *)

(** A [Map<string, V>] in insertion order. *)
Definition JsMap (V : Type) : Type := list (string * V).

Fixpoint mapGet {V : Type} (k : string) (m : JsMap V) : option V :=
  match m with
  | [] => None
  | (k', v) :: rest => if String.eqb k' k then Some v else mapGet k rest
  end.

Definition mapHas {V : Type} (k : string) (m : JsMap V) : bool :=
  match mapGet k m with
  | Some _ => true
  | None => false
  end.

(** [m.set(k, v)]: an existing key keeps its place, a new key goes last. *)
Fixpoint mapSet {V : Type} (k : string) (v : V) (m : JsMap V) : JsMap V :=
  match m with
  | [] => [(k, v)]
  | (k', v') :: rest =>
      if String.eqb k' k then (k', v) :: rest else (k', v') :: mapSet k v rest
  end.

Definition mapKeys {V : Type} (m : JsMap V) : list string := map fst m.
Definition mapValues {V : Type} (m : JsMap V) : list V := map snd m.

(** [statuses.includes(s)]. *)
Definition includes (l : list string) (s : string) : bool :=
  existsb (String.eqb s) l.

Record BacklogConfig : Type := mkConfig {
  statuses : option (list string);
  taskResolutionStrategy : option string;
  maxColumnWidth : option Z
}.

(** [config?.statuses || []]. *)
Definition configStatuses (config : option BacklogConfig) : list string :=
  match config with
  | Some c => default [] (statuses c)
  | None => []
  end.

(** The loop that fills [groups]. *)
Definition groupByStatus (filtered : list Task) : JsMap (list Task) :=
  fold_left
    (fun groups task =>
       let st := JS.orElse (status task) "" in
       let list := default [] (mapGet st groups) in
       mapSet st (list ++ [task]) groups)
    filtered [].

(** The array [ordered] of status names. *)
Definition orderedStatuses (statusList : list string) (groups : JsMap (list Task))
    : list string :=
  List.filter (fun s => mapHas s groups) statusList ++
  List.filter (fun s => negb (includes statusList s)) (mapKeys groups).

(** The groups in the order they are printed, each with its tasks. *)
Definition listGroups (config : option BacklogConfig) (filtered : list Task)
    : list (string * list Task) :=
  let groups := groupByStatus filtered in
  omap (M := list)
    (fun s => match mapGet s groups with
              | Some list => Some (s, list)
              | None => None
              end)
    (orderedStatuses (configStatuses config) groups).

Definition printGroup (g : string * list Task) : list ConsoleLine :=
  Log (JS.orElse (fst g) "No Status" +:+ ":") ::
  map (fun t => Log ("  " +:+ id t +:+ " - " +:+ title t)) (snd g) ++
  [Log ""].

(** The plain-text branch of [task list] for the tasks left by the
    filters. *)
Definition taskListPlain (config : option BacklogConfig) (filtered : list Task)
    : list ConsoleLine :=
  match filtered with
  | [] => [Log "No tasks found."]
  | _ => flat_map printGroup (listGroups config filtered)
  end.

(** ** The core modules imported by the board commands

    [cli.ts] imports [resolveTaskConflict] and [TaskWithMetadata] from
    [core/remote-tasks.ts], and [getLatestTaskStatesForIds] and
    [filterTasksByLatestState] from [core/cross-branch-tasks.ts].  Those two
    files are described by sections 3 and 4 of the specification; the
    definitions of this part follow its wording. *)

(** Modelled from the spec: the [source] of a ProvenanceRecord, "local" or
    "remote"; its declaration is in [core/remote-tasks.ts]. *)
Inductive Source : Type := fromLocal | fromRemote.

(** Modelled from the spec: the type [TaskWithMetadata] of
    [core/remote-tasks.ts], the specification's ProvenanceRecord: a task
    record wrapped with its [source] and origin branch, and the commit
    timestamp used when the record has no [updatedDate].  Dates and
    timestamps are ISO-8601 text, whose lexicographic order is the
    chronological one. *)
Record TaskWithMetadata : Type := mkMeta {
  task : Task;
  source : option Source;
  originBranch : option string;
  commitTimestamp : string
}.

#[global] Instance Priority_eq_dec : EqDecision Priority.
Proof. solve_decision. Defined.
#[global] Instance Task_eq_dec : EqDecision Task.
Proof. solve_decision. Defined.
#[global] Instance Source_eq_dec : EqDecision Source.
Proof. solve_decision. Defined.
#[global] Instance TaskWithMetadata_eq_dec : EqDecision TaskWithMetadata.
Proof. solve_decision. Defined.

Module ConflictResolver.

(** Modelled from the spec: the two strategies of the ConflictResolver. *)
Inductive Strategy : Type := most_progressed | most_recent.

(** Modelled from the spec: the configured strategy identifier, "one of
    most_progressed | most_recent"; any other name is unrecognized. *)
Definition parseStrategy (name : string) : option Strategy :=
  if String.eqb name "most_progressed" then Some most_progressed
  else if String.eqb name "most_recent" then Some most_recent
  else None.

(** Modelled from the spec: the rank of a status, "index = rank;
    unrecognized status ranks below all configured statuses, i.e.,
    rank -1". *)
Fixpoint statusRank (statusOrder : list string) (st : string) : Z :=
  match statusOrder with
  | [] => (-1)%Z
  | s :: rest =>
      if String.eqb s st then 0%Z
      else let r := statusRank rest st in
           if (r <? 0)%Z then (-1)%Z else (r + 1)%Z
  end.

(** Modelled from the spec: "updatedDate (or commit timestamp if
    updatedDate absent)". *)
Definition recordTime (t : TaskWithMetadata) : string :=
  default (commitTimestamp t) (updatedDate (task t)).

(** Modelled from the spec: "the later one wins"; [a] is strictly later
    than [b]. *)
Definition later (a b : string) : bool := String.ltb b a.

(** Modelled from the spec: the choice between two present records
    (section 4.3).  most_progressed: the higher rank wins, on a rank tie
    the later record, on a full tie the local one.  most_recent: the later
    record wins, on a tie the local one. *)
Definition choose (strategy : Strategy) (statusOrder : list string)
    (localRecord remoteRecord : TaskWithMetadata) : TaskWithMetadata :=
  match strategy with
  | most_progressed =>
      let rl := statusRank statusOrder (status (task localRecord)) in
      let rr := statusRank statusOrder (status (task remoteRecord)) in
      if (rl <? rr)%Z then remoteRecord
      else if (rr <? rl)%Z then localRecord
      else if later (recordTime remoteRecord) (recordTime localRecord) then remoteRecord
      else localRecord
  | most_recent =>
      if later (recordTime remoteRecord) (recordTime localRecord) then remoteRecord
      else localRecord
  end.

(** Modelled from the spec: the sides [local?] and [remote?] handed to the
    resolver, of which at least one is present. *)
Inductive Sides : Type :=
| OnlyLocal (localRecord : TaskWithMetadata)
| OnlyRemote (remoteRecord : TaskWithMetadata)
| Both (localRecord remoteRecord : TaskWithMetadata).

(** Modelled from the spec: the contract
    [resolve(local?, remote?, statusOrder, strategy) -> TaskRecord] of the
    ConflictResolver, absent from the sources.  An unrecognized strategy
    name is a configuration error, raised before anything else; a single
    side is returned unchanged; identical records need no choice. *)
Definition resolve (sides : Sides) (statusOrder : list string) (strategy : string)
    : JS.Result TaskWithMetadata :=
  match parseStrategy strategy with
  | None => JS.Throw ("Unknown task resolution strategy: " +:+ strategy)
  | Some st =>
      match sides with
      | OnlyLocal l => JS.Ok l
      | OnlyRemote r => JS.Ok r
      | Both l r => if decide (l = r) then JS.Ok l else JS.Ok (choose st statusOrder l r)
      end
  end.

End ConflictResolver.

(** Modelled from the spec: [resolveTaskConflict] of
    [core/remote-tasks.ts], the ConflictResolver called with both sides
    present. *)
Definition resolveTaskConflict (existing incoming : TaskWithMetadata)
    (statusList : list string) (strategy : string) : JS.Result TaskWithMetadata :=
  ConflictResolver.resolve (ConflictResolver.Both existing incoming) statusList strategy.

Module LatestLocationResolver.

(** Modelled from the spec: the three location kinds of section 3. *)
Inductive LocationKind : Type := active | draft | archived.

(** Modelled from the spec: a branch, or the "synthetic branch marker" of
    the local working copy (section 4.1). *)
Inductive BranchRef : Type :=
| workingCopy
| branchNamed (name : string).

(** Modelled from the spec: the LocationObservation of section 3, one
    sighting of a task file.  The ResolvedLocation of a task id is the one
    of its observations judged most current, so the resolved map holds
    values of this same type. *)
Record LocationObservation : Type := mkObservation {
  taskId : string;
  branch : BranchRef;
  locationKind : LocationKind;
  timestamp : Z
}.

(** Modelled from the spec: "prefer the one whose locationKind is active,
    then draft, then archived". *)
Definition kindRank (k : LocationKind) : Z :=
  match k with
  | active => 2
  | draft => 1
  | archived => 0
  end.

(** Modelled from the spec: "prefer the local-origin observation over any
    remote one". *)
Definition originRank (b : BranchRef) : Z :=
  match b with
  | workingCopy => 1
  | branchNamed _ => 0
  end.

(** Lexicographic combination of two comparisons. *)
Definition lexi (c1 c2 : comparison) : comparison :=
  match c1 with
  | Eq => c2
  | _ => c1
  end.

(** Modelled from the spec: the order in which observations of one task
    are ranked (section 4.2): the later timestamp first; on an identical
    timestamp active before draft before archived; then the local origin
    before a remote one.  The specification names no further criterion. *)
Definition compareObservations (a b : LocationObservation) : comparison :=
  lexi (timestamp a ?= timestamp b)%Z
    (lexi (kindRank (locationKind a) ?= kindRank (locationKind b))%Z
       (originRank (branch a) ?= originRank (branch b))%Z).

(** Modelled from the spec: the preferred one of two observations of the
    same task; the current one stays unless the new one ranks higher. *)
Definition prefer (current o : LocationObservation) : LocationObservation :=
  match compareObservations o current with
  | Gt => o
  | _ => current
  end.

(** Modelled from the spec: "group observations by TaskId": one
    observation joins the group of its task id. *)
Definition resolveStep (m : gmap string LocationObservation) (o : LocationObservation)
    : gmap string LocationObservation :=
  match m !! taskId o with
  | Some current => <[taskId o := prefer current o]> m
  | None => <[taskId o := o]> m
  end.

(** Modelled from the spec: the contract
    [resolve(observations) -> Map<TaskId, ResolvedLocation>]: observations
    are grouped by task id and the preferred one of each group is kept; a
    task id with no observation is absent from the result. *)
Definition resolve (observations : list LocationObservation)
    : gmap string LocationObservation :=
  fold_left resolveStep observations ∅.

(** Modelled from the spec: "liveness = locationKind == active". *)
Definition isLive (loc : LocationObservation) : bool :=
  match locationKind loc with
  | active => true
  | _ => false
  end.

End LatestLocationResolver.

(** Modelled from the spec: [getLatestTaskStatesForIds] of
    [core/cross-branch-tasks.ts]: the latest location of each of the given
    task ids; [observations] is what the branch scan found. *)
Definition getLatestTaskStatesForIds
    (observations : list LatestLocationResolver.LocationObservation)
    (taskIds : list string)
    : gmap string LatestLocationResolver.LocationObservation :=
  LatestLocationResolver.resolve
    (List.filter (fun o => includes taskIds (LatestLocationResolver.taskId o)) observations).

(** Modelled from the spec: [filterTasksByLatestState] of
    [core/cross-branch-tasks.ts], the filter of the BoardAssembler: it
    "filters out every ResolvedTask whose ResolvedLocation is not active";
    the order of the survivors is that of the input. *)
Definition filterTasksByLatestState (tasks : list TaskWithMetadata)
    (latest : gmap string LatestLocationResolver.LocationObservation)
    : list TaskWithMetadata :=
  List.filter
    (fun t => match latest !! id (task t) with
              | Some loc => LatestLocationResolver.isLive loc
              | None => false
              end)
    tasks.

(** ** The board pipeline: [handleBoardView] *)

(** [{ ...t, source: "local" }]. *)
Definition asLocal (t : TaskWithMetadata) : TaskWithMetadata :=
  {| task := task t; source := Some fromLocal;
     originBranch := originBranch t; commitTimestamp := commitTimestamp t |}.

(** The type of the imported [resolveTaskConflict]. *)
Definition Resolver : Type :=
  TaskWithMetadata -> TaskWithMetadata -> list string -> string ->
  JS.Result TaskWithMetadata.

(** [new Map(localTasks.map((t) => [t.id, { ...t, source: "local" }]))]. *)
Definition localTasksById (localTasks : list TaskWithMetadata) : JsMap TaskWithMetadata :=
  fold_left (fun m t => mapSet (id (task t)) (asLocal t) m) localTasks [].

(** One round of the loop that merges the remote tasks. *)
Definition mergeRemoteTask (resolver : Resolver) (statusList : list string)
    (resolutionStrategy : string) (tasksById : JsMap TaskWithMetadata)
    (remoteTask : TaskWithMetadata) : JS.Result (JsMap TaskWithMetadata) :=
  match mapGet (id (task remoteTask)) tasksById with
  | None => JS.Ok (mapSet (id (task remoteTask)) remoteTask tasksById)
  | Some existing =>
      resolved ← resolver existing remoteTask statusList resolutionStrategy;
      JS.Ok (mapSet (id (task remoteTask)) resolved tasksById)
  end.

Fixpoint mergeRemoteTasks (resolver : Resolver) (statusList : list string)
    (resolutionStrategy : string) (tasksById : JsMap TaskWithMetadata)
    (remoteTasks : list TaskWithMetadata) : JS.Result (JsMap TaskWithMetadata) :=
  match remoteTasks with
  | [] => JS.Ok tasksById
  | remoteTask :: rest =>
      tasksById' ← mergeRemoteTask resolver statusList resolutionStrategy tasksById remoteTask;
      mergeRemoteTasks resolver statusList resolutionStrategy tasksById' rest
  end.

(** [config?.taskResolutionStrategy || "most_progressed"]. *)
Definition configStrategy (config : option BacklogConfig) : string :=
  match config with
  | Some c => stringOr (taskResolutionStrategy c) "most_progressed"
  | None => "most_progressed"
  end.

Record BoardOptions : Type := mkBoardOptions {
  opt_layout : option string;
  opt_vertical : bool
}.

(** What [handleBoardView] ends with: the message of an empty board, or
    the call of [renderBoardTui]. *)
Inductive BoardOutput : Type :=
| NoTasksFound
| RenderBoard (allTasks : list TaskWithMetadata) (statusList : list string)
    (layout : string) (width : Z).

(** The tasks of the board: local and remote tasks merged by id, then
    filtered by their latest location. *)
Definition loadBoardTasks (resolver : Resolver) (config : option BacklogConfig)
    (localTasks remoteTasks : list TaskWithMetadata)
    (observations : list LatestLocationResolver.LocationObservation)
    : JS.Result (list TaskWithMetadata) :=
  let statusList := configStatuses config in
  let resolutionStrategy := configStrategy config in
  tasksById ← mergeRemoteTasks resolver statusList resolutionStrategy
                 (localTasksById localTasks) remoteTasks;
  let tasks := mapValues tasksById in
  let taskIds := map (fun t => id (task t)) tasks in
  let latestTaskDirectories := getLatestTaskStatesForIds observations taskIds in
  JS.Ok (filterTasksByLatestState tasks latestTaskDirectories).

Definition handleBoardView (resolver : Resolver) (config : option BacklogConfig)
    (localTasks remoteTasks : list TaskWithMetadata)
    (observations : list LatestLocationResolver.LocationObservation)
    (options : BoardOptions) : JS.Result BoardOutput :=
  allTasks ← loadBoardTasks resolver config localTasks remoteTasks observations;
  match allTasks with
  | [] => JS.Ok NoTasksFound
  | _ =>
      let layout := if opt_vertical options then "vertical"
                    else stringOr (opt_layout options) "horizontal" in
      let width := match config with
                   | Some c => match maxColumnWidth c with
                               | Some w => if (w =? 0)%Z then 20%Z else w
                               | None => 20%Z
                               end
                   | None => 20%Z
                   end in
      JS.Ok (RenderBoard allTasks (configStatuses config) layout width)
  end.

(** ** Vocabulary of the statements *)

(** The top-level number of an id: the [<n>] of [task-<n>] and of
    [task-<n>.<m>]. *)
Definition topLevelNumber (taskId : string) : option Z :=
  match matchTopLevel taskId with
  | Some m => JS.parseInt (JS.orElse m "0")
  | None => None
  end.

(** The subtask ordinal of an id under [prefix]: the [<n>] of
    [<prefix>.<n>]. *)
Definition subtaskOrdinal (prefix taskId : string) : option Z :=
  if JS.startsWith taskId (prefix +:+ ".")
  then JS.parseInt
         (JS.orElse (JS.first (JS.split "." (JS.slice (String.length prefix + 1) taskId))) "0")
  else None.

(** [m] is the maximum of the numbers [num] gives to [ids], and 0 when it
    gives none a positive number. *)
Definition isMaxOf (num : string -> option Z) (ids : list string) (m : Z) : Prop :=
  (0 <= m)%Z /\
  (forall i n, In i ids -> num i = Some n -> (n <= m)%Z) /\
  (m = 0%Z \/ exists i, In i ids /\ num i = Some m).

(** The loop body shared by both allocation paths,
    [if (num > max) max = num], for a reading [num] of an id. *)
Definition maxStep (num : string -> option Z) (max : Z) (taskId : string) : Z :=
  match num taskId with
  | Some n => Z.max max n
  | None => max
  end.

(** The ids [generateNextId] collects in [allIds]. *)
Definition scannedIds (core : Core) : list string :=
  match remoteTaskIds (gitOps core) with
  | JS.Ok ids => ids
  | JS.Throw _ => []
  end.

(** The ids the allocator can see: those of the local tasks, of the local
    drafts, and those read from the files of the scanned branches. *)
Definition visibleIds (core : Core) : list string :=
  map id (listTasks (filesystem core)) ++
  map id (listDrafts (filesystem core)) ++
  scannedIds core.

(** The prefix the subtask path builds from [parent]. *)
Definition subtaskPrefix (parent : string) : string :=
  if JS.startsWith parent "task-" then parent else "task-" +:+ parent.

(** The same working copy with a repository that has no branch to scan. *)
Definition localOnly (core : Core) : Core :=
  {| filesystem := filesystem core;
     gitOps := {| fetch := JS.Ok tt;
                  listAllBranches := JS.Ok [];
                  listFilesInTree := fun _ _ => JS.Ok [] |} |}.

(** The distinct elements of a list in the order of their first
    occurrence. *)
Fixpoint firstSeen (l : list string) : list string :=
  match l with
  | [] => []
  | s :: rest => s :: List.filter (fun x => negb (String.eqb x s)) (firstSeen rest)
  end.

(** The comma-separated pieces of a dependency option, before trimming. *)
Definition rawPieces (v : OptionValue) : list string :=
  match v with
  | Multiple l => flat_map (JS.split ",") l
  | Single s => JS.split "," s
  | Undefined => []
  end.

(** ** Sample data *)

Definition sampleTask (taskId taskStatus : string) : Task :=
  {| id := taskId; title := "Sample"; status := taskStatus; assignee := [];
     createdDate := "2025-06-30"; updatedDate := None; labels := [];
     dependencies := []; description := ""; parentTaskId := None;
     priority := None |}.

(** A repository with one branch holding one subtask file. *)
Definition oneBranch : GitOps :=
  {| fetch := JS.Ok tt;
     listAllBranches := JS.Ok ["main"];
     listFilesInTree := fun _ _ => JS.Ok ["backlog/tasks/task-2.1 - Subtask.md"] |}.

(** A repository that cannot be reached. *)
Definition offline : GitOps :=
  {| fetch := JS.Throw "unable to access remote";
     listAllBranches := JS.Ok ["main"];
     listFilesInTree := fun _ _ => JS.Ok ["backlog/tasks/task-7 - Remote.md"] |}.

(** Local tasks task-1 and task-2; task-2.1 lives on a branch. *)
Definition sampleCore : Core :=
  {| filesystem := {| listTasks := [sampleTask "task-1" "To Do"; sampleTask "task-2" "Done"];
                      listDrafts := [] |};
     gitOps := oneBranch |}.

(** Local tasks task-1 and task-2; task-2.1 is a local draft. *)
Definition draftSubtaskCore : Core :=
  {| filesystem := {| listTasks := [sampleTask "task-1" "To Do"; sampleTask "task-2" "Done"];
                      listDrafts := [sampleTask "task-2.1" ""] |};
     gitOps := (gitOps (localOnly sampleCore)) |}.

Definition offlineCore : Core :=
  {| filesystem := filesystem sampleCore; gitOps := offline |}.

(** The local task task-1 and the local draft task-5. *)
Definition draftOnlyCore : Core :=
  {| filesystem := {| listTasks := [sampleTask "task-1" "To Do"];
                      listDrafts := [sampleTask "task-5" ""] |};
     gitOps := (gitOps (localOnly sampleCore)) |}.

(** The ids of the local tasks and drafts, against which dependencies
    are validated. *)
Definition localIds (core : Core) : list string :=
  map id (listTasks (filesystem core)) ++ map id (listDrafts (filesystem core)).

(** The dependency option read by [task create]. *)
Definition dependencyOption (options : CreateOptions) : OptionValue :=
  optionOr (opt_dependsOn options) (opt_dep options).

(** The tasks of a list whose status is [s], in the order of the list. *)
Definition groupOf (filtered : list Task) (s : string) : list Task :=
  List.filter (fun t => String.eqb (status t) s) filtered.

(** A configuration that names the status To Do twice. *)
Definition repeatedStatusConfig : option BacklogConfig :=
  Some {| statuses := Some ["To Do"; "To Do"];
          taskResolutionStrategy := None;
          maxColumnWidth := None |}.

Definition defaultConfig : option BacklogConfig :=
  Some {| statuses := Some ["To Do"; "In Progress"; "Done"];
          taskResolutionStrategy := None;
          maxColumnWidth := None |}.

Definition sampleTasks : list Task :=
  [sampleTask "task-1" "Blocked"; sampleTask "task-2" "Done";
   sampleTask "task-3" "To Do"; sampleTask "task-4" "Blocked"].

(** [r] is the observation of task [i] that no other observation of [i]
    is preferred to. *)
Definition isLatest (observations : list LatestLocationResolver.LocationObservation)
    (i : string) (r : LatestLocationResolver.LocationObservation) : Prop :=
  In r observations /\
  LatestLocationResolver.taskId r = i /\
  forall o, In o observations -> LatestLocationResolver.taskId o = i ->
            LatestLocationResolver.compareObservations o r <> Gt.

(** The tasks a board output shows. *)
Definition boardTasks (out : BoardOutput) : list TaskWithMetadata :=
  match out with
  | NoTasksFound => []
  | RenderBoard allTasks _ _ _ => allTasks
  end.


(** Some remote task carries an id that is already [seen], or the id of
    an earlier remote task: the situations in which the merge loop calls
    the conflict resolver. *)
Fixpoint remoteCollision (seen : list string) (remoteTasks : list TaskWithMetadata) : bool :=
  match remoteTasks with
  | [] => false
  | remoteTask :: rest =>
      includes seen (id (task remoteTask)) ||
      remoteCollision (id (task remoteTask) :: seen) rest
  end.

Definition idCollision (localTasks remoteTasks : list TaskWithMetadata) : bool :=
  remoteCollision (map (fun t => id (task t)) localTasks) remoteTasks.

Definition sampleRecord (taskId taskStatus : string) (updated : option string)
    : TaskWithMetadata :=
  {| task := {| id := taskId; title := "Sample"; status := taskStatus; assignee := [];
                createdDate := "2025-01-01"; updatedDate := updated; labels := [];
                dependencies := []; description := ""; parentTaskId := None;
                priority := None |};
     source := Some fromRemote;
     originBranch := Some "main";
     commitTimestamp := "2025-01-01" |}.

Definition strategyConfig (strategy : option string) : option BacklogConfig :=
  Some {| statuses := Some ["To Do"; "In Progress"; "Done"];
          taskResolutionStrategy := strategy;
          maxColumnWidth := None |}.

Definition defaultBoardOptions : BoardOptions :=
  {| opt_layout := None; opt_vertical := false |}.

(** task-1 and task-2, both seen active in the working copy. *)
Definition liveObservations : list LatestLocationResolver.LocationObservation :=
  [LatestLocationResolver.mkObservation "task-1"
     LatestLocationResolver.workingCopy LatestLocationResolver.active 1700;
   LatestLocationResolver.mkObservation "task-2"
     LatestLocationResolver.workingCopy LatestLocationResolver.active 1700].

(** A resolver that rejects every call, reporting the strategy name it
    was handed. *)
Definition rejectingResolver : Resolver :=
  fun _ _ _ strategy => JS.Throw strategy.

(** ** Further commands of the CLI *)

(** [file.match(/^<stem>(\d+)/)] for the literal [stem]: the capture
    group.  Used with the stems [decision-] and [doc-]. *)
Definition matchNumbered (stem file : string) : option string :=
  if JS.startsWith file stem
  then match JS.takeWhile JS.isDigit (JS.slice (String.length stem) file) with
       | EmptyString => None
       | ds => Some ds
       end
  else None.

(** One round of the loop of [generateNextDecisionId] and
    [generateNextDocId]: the new value of [max]. *)
Definition numberedStep (stem : string) (max : Z) (file : string) : Z :=
  match matchNumbered stem file with
  | Some m =>
      let num := JS.parseInt (JS.orElse m "0") in
      if JS.gt num max then default max num else max
  | None => max
  end.

(** [generateNextDecisionId(core)]; [files] is what the scan of
    [decision-*.md] in the decisions directory yields. *)
Definition generateNextDecisionId (files : list string) : string :=
  let max := fold_left (numberedStep "decision-") files 0%Z in
  "decision-" +:+ JS.numberToString (JS.add max 1).

(** [generateNextDocId(core)]; [files] is what the scan of [*.md] in the
    docs directory yields. *)
Definition generateNextDocId (files : list string) : string :=
  let max := fold_left (numberedStep "doc-") files 0%Z in
  "doc-" +:+ JS.numberToString (JS.add max 1).

(** The number a file carries after [stem]. *)
Definition fileNumber (stem file : string) : option Z :=
  match matchNumbered stem file with
  | Some m => JS.parseInt (JS.orElse m "0")
  | None => None
  end.

(** [files.find((f) => f.startsWith(`${normalizedId} -`))] of
    [task view <taskId>] and [task <taskId>]. *)
Definition findTaskFile (files : list string) (taskId : string) : option string :=
  let normalizedId := if JS.startsWith taskId "task-" then taskId else "task-" +:+ taskId in
  List.find (fun f => JS.startsWith f (normalizedId +:+ " -")) files.

(** [c.toLowerCase()] on one code unit in 0..255: the letters A..Z and the
    Latin-1 capitals U+00C0..U+00DE, the multiplication sign excepted,
    move up by 32. *)
Definition toLowerUnit (a : ascii) : ascii :=
  let n := nat_of_ascii a in
  if ((65 <=? n) && (n <=? 90)) ||
     ((192 <=? n) && (n <=? 222) && negb (n =? 215))
  then ascii_of_nat (n + 32)
  else a.

(** [s.toLowerCase()] on strings of such code units. *)
Fixpoint lowerCase (s : string) : string :=
  match s with
  | EmptyString => EmptyString
  | String a r => String (toLowerUnit a) (lowerCase r)
  end.

(** The options of [task list]. *)
Record ListOptions : Type := mkListOptions {
  list_status : option string;
  list_assignee : option string
}.

(** The two filters of [task list]. *)
Definition taskListFilter (options : ListOptions) (tasks : list Task) : list Task :=
  let filtered :=
    if JS.truthyOpt (list_status options)
    then let statusLower := lowerCase (default EmptyString (list_status options)) in
         List.filter (fun t => String.eqb (lowerCase (status t)) statusLower) tasks
    else tasks in
  if JS.truthyOpt (list_assignee options)
  then List.filter
         (fun t => includes (assignee t) (default EmptyString (list_assignee options)))
         filtered
  else filtered.

(** [task list --plain]: the console output for the tasks of the working
    copy. *)
Definition taskListCommand (config : option BacklogConfig) (options : ListOptions)
    (tasks : list Task) : list ConsoleLine :=
  taskListPlain config (taskListFilter options tasks).

(** The options of [task edit]. *)
Record EditOptions : Type := mkEditOptions {
  edit_title : option string;
  edit_description : option string;
  edit_assignee : option string;
  edit_status : option string;
  edit_label : option string;
  edit_priority : option string;
  edit_addLabel : OptionValue;
  edit_removeLabel : OptionValue;
  edit_ac : OptionValue;
  edit_acceptanceCriteria : OptionValue;
  edit_plan : option string;
  edit_dependsOn : OptionValue;
  edit_dep : OptionValue
}.

(** [Array.isArray(v) ? v : [v]] for a truthy option value. *)
Definition asArray (v : OptionValue) : list string :=
  match v with
  | Multiple l => l
  | Single s => [s]
  | Undefined => []
  end.

(** One round of the [--add-label] loop:
    [if (trimmed && !labels.includes(trimmed)) labels.push(trimmed)]. *)
Definition addLabelStep (labelList : list string) (l : string) : list string :=
  let trimmed := JS.trim l in
  if JS.truthy trimmed && negb (includes labelList trimmed)
  then labelList ++ [trimmed]
  else labelList.

(** [labels.splice(labels.indexOf(x), 1)] when [x] occurs: the first
    occurrence is removed. *)
Fixpoint removeFirst (x : string) (labelList : list string) : list string :=
  match labelList with
  | [] => []
  | y :: rest => if String.eqb y x then rest else y :: removeFirst x rest
  end.

(** One round of the [--remove-label] loop. *)
Definition removeLabelStep (labelList : list string) (l : string) : list string :=
  removeFirst (JS.trim l) labelList.

(** The labels [task edit] leaves on the task. *)
Definition editLabels (labelList : list string) (options : EditOptions) : list string :=
  let labelList :=
    if JS.truthyOpt (edit_label options)
    then List.filter JS.truthy
           (map JS.trim (JS.split "," (default EmptyString (edit_label options))))
    else labelList in
  let labelList :=
    if optionTruthy (edit_addLabel options)
    then fold_left addLabelStep (asArray (edit_addLabel options)) labelList
    else labelList in
  if optionTruthy (edit_removeLabel options)
  then fold_left removeLabelStep (asArray (edit_removeLabel options)) labelList
  else labelList.

(** A task with the fields [task edit] assigns replaced. *)
Definition editedTask (t : Task) (newTitle newDescription newStatus : string)
    (newAssignee : list string) (newPriority : option Priority)
    (newLabels : list string) (today : string) : Task :=
  {| id := id t; title := newTitle; status := newStatus; assignee := newAssignee;
     createdDate := createdDate t; updatedDate := Some today;
     labels := newLabels; dependencies := dependencies t; description := newDescription;
     parentTaskId := parentTaskId t; priority := newPriority |}.

(** What one run of [task edit] leaves behind: the task handed to
    [core.updateTask], the console lines and [process.exitCode]. *)
Record EditOutcome : Type := mkEditOutcome {
  updated : option Task;
  editConsole : list ConsoleLine;
  editExitCode : option Z
}.

(** The action of [task edit <taskId>].  [loaded] is what
    [core.filesystem.loadTask(taskId)] answers; [today] is the date part
    of [new Date().toISOString()]. *)
Definition taskEdit (today : string) (ser : Serializer) (core : Core)
    (loaded : option Task) (taskId : string) (options : EditOptions) : EditOutcome :=
  match loaded with
  | None =>
      {| updated := None;
         editConsole := [Error ("Task " +:+ taskId +:+ " not found.")];
         editExitCode := None |}
  | Some task =>
      let newTitle := stringOr (edit_title options) (title task) in
      let newDescription := stringOr (edit_description options) (description task) in
      let newAssignee :=
        match edit_assignee options with
        | Some a => [a]
        | None => assignee task
        end in
      let newStatus := stringOr (edit_status options) (status task) in
      let priorityCheck :=
        if JS.truthyOpt (edit_priority options)
        then
          let p := lowerCase (default EmptyString (edit_priority options)) in
          match validPriority p with
          | Some v => inl (Some v)
          | None => inr p
          end
        else inl (priority task) in
      match priorityCheck with
      | inr p =>
          {| updated := None;
             editConsole :=
               [Error ("Invalid priority: " +:+ p +:+ ". Valid values are: high, medium, low")];
             editExitCode := None |}
      | inl newPriority =>
          let task :=
            editedTask task newTitle newDescription newStatus newAssignee newPriority
              (editLabels (labels task) options) today in
          let depOption := optionOr (edit_dependsOn options) (edit_dep options) in
          let checked :=
            if optionTruthy depOption
            then
              let '(valid, invalid) :=
                validateDependencies (normalizeDependencies depOption) core in
              match invalid with
              | [] => inl (withDependencies task valid)
              | _ => inr invalid
              end
            else inl task in
          match checked with
          | inr invalid =>
              {| updated := None;
                 editConsole :=
                   [Error ("Error: The following dependencies do not exist: " +:+
                           join ", " invalid);
                    Error "Please create these tasks first or check the task IDs."];
                 editExitCode := Some 1%Z |}
          | inl task =>
              let acceptanceCriteria :=
                optionOr (edit_ac options) (edit_acceptanceCriteria options) in
              let task :=
                if optionTruthy acceptanceCriteria
                then withDescription task
                       (updateTaskAcceptanceCriteria ser (description task)
                          (criteriaOf acceptanceCriteria))
                else task in
              let task :=
                if JS.truthyOpt (edit_plan options)
                then withDescription task
                       (updateTaskImplementationPlan ser (description task)
                          (default EmptyString (edit_plan options)))
                else task in
              {| updated := Some task;
                 editConsole := [Log ("Updated task " +:+ id task)];
                 editExitCode := None |}
          end
      end
  end.




(** The three environment variables [openFileInEditor] reads. *)
Record EditorEnv : Type := mkEditorEnv {
  env_BACKLOG_EDITOR : option string;
  env_VISUAL : option string;
  env_EDITOR : option string
}.

(** [a || b] on possibly undefined strings. *)
Definition envOr (a b : option string) : option string :=
  if JS.truthyOpt a then a else b.

(** [openFileInEditor(filePath)].  [spawn] is what [Bun.spawn] followed by
    [await proc.exited] answers for a command: the process has run, or the
    error thrown because it could not be started.  The result is the list
    of the commands handed to [Bun.spawn] and what the call ends with. *)
Definition openFileInEditor (env : EditorEnv) (spawn : list string -> JS.Result unit)
    (filePath : string) : list (list string) * JS.Result unit :=
  let editor := envOr (env_BACKLOG_EDITOR env) (envOr (env_VISUAL env) (env_EDITOR env)) in
  if negb (JS.truthyOpt editor)
  then ([], JS.Throw "No editor configured. Set BACKLOG_EDITOR, VISUAL or EDITOR")
  else
    let command := [default EmptyString editor; filePath] in
    ([command], spawn command).

(** ** Vocabulary of the further statements *)

(** Every character of [s] satisfies [p]. *)
Definition allChars (p : ascii -> bool) (s : string) : bool :=
  forallb p (list_ascii_of_string s).


(** The run [matchTaskFile] reads at the start of [file]. *)
Definition runAtStart (file : string) : string :=
  if JS.startsWith file "task-"
  then JS.takeWhile JS.isDigitOrDot (JS.slice 5 file)
  else EmptyString.

(** The options of [task create] with another [--parent]. *)
Definition withParent (options : CreateOptions) (parent : option string) : CreateOptions :=
  {| opt_description := opt_description options; opt_assignee := opt_assignee options;
     opt_status := opt_status options; opt_labels := opt_labels options;
     opt_priority := opt_priority options; opt_ac := opt_ac options;
     opt_acceptanceCriteria := opt_acceptanceCriteria options;
     opt_plan := opt_plan options; opt_draft := opt_draft options;
     opt_parent := parent;
     opt_dependsOn := opt_dependsOn options; opt_dep := opt_dep options |}.


Definition noCreateOptions : CreateOptions :=
  {| opt_description := None; opt_assignee := None; opt_status := None;
     opt_labels := None; opt_priority := None; opt_ac := Undefined;
     opt_acceptanceCriteria := Undefined; opt_plan := None; opt_draft := false;
     opt_parent := None; opt_dependsOn := Undefined; opt_dep := Undefined |}.

Definition identitySerializer : Serializer :=
  {| updateTaskAcceptanceCriteria := fun text _ => text;
     updateTaskImplementationPlan := fun text _ => text |}.

Definition samplePath (isDraft : bool) (t : Task) : string :=
  (if isDraft then "backlog/drafts/" else "backlog/tasks/") +:+ id t +:+ " - " +:+ title t +:+ ".md".

(** The dependency option read by [task edit]. *)
Definition editDependencyOption (options : EditOptions) : OptionValue :=
  optionOr (edit_dependsOn options) (edit_dep options).

(** [task edit] was given a priority that is none of high, medium, low. *)
Definition priorityRejected (options : EditOptions) : Prop :=
  JS.truthyOpt (edit_priority options) = true /\
  validPriority (lowerCase (default EmptyString (edit_priority options))) = None.

(** [task edit] was given dependencies of which one is no local task or
    draft. *)
Definition dependenciesRejected (options : EditOptions) (core : Core) : Prop :=
  optionTruthy (editDependencyOption options) = true /\
  ~ List.Forall (fun d => In d (localIds core))
      (normalizeDependencies (editDependencyOption options)).

Definition noEditOptions : EditOptions :=
  {| edit_title := None; edit_description := None; edit_assignee := None;
     edit_status := None; edit_label := None; edit_priority := None;
     edit_addLabel := Undefined; edit_removeLabel := Undefined; edit_ac := Undefined;
     edit_acceptanceCriteria := Undefined; edit_plan := None;
     edit_dependsOn := Undefined; edit_dep := Undefined |}.

(** The id of a record. *)
Definition recordId (t : TaskWithMetadata) : string := id (task t).

(** A task passes the filters of [task list]. *)
Definition passesFilters (options : ListOptions) (t : Task) : Prop :=
  (JS.truthyOpt (list_status options) = true ->
   lowerCase (status t) = lowerCase (default EmptyString (list_status options))) /\
  (JS.truthyOpt (list_assignee options) = true ->
   In (default EmptyString (list_assignee options)) (assignee t)).

(** The line [task list --plain] prints for a task. *)
Definition taskLine (t : Task) : ConsoleLine :=
  Log ("  " +:+ id t +:+ " - " +:+ title t).

(** The call of [exportKanbanBoardToFile] made by [board export]. *)
Record ExportCall : Type := mkExportCall {
  export_tasks : list TaskWithMetadata;
  export_statuses : list string;
  export_path : string;
  export_width : Z;
  export_addTitle : bool
}.

(** The action of [board export [filename]].  [pathJoin] is [join] of
    [node:path], [cwd] the working directory, [output] the deprecated
    [--output] option: the export call made and the line printed, or the
    error thrown while the tasks are merged. *)
Definition boardExport (resolver : Resolver) (config : option BacklogConfig)
    (localTasks remoteTasks : list TaskWithMetadata)
    (observations : list LatestLocationResolver.LocationObservation)
    (pathJoin : string -> string -> string) (cwd : string)
    (filename output : option string) : JS.Result (ExportCall * list ConsoleLine) :=
  let statusList := configStatuses config in
  let resolutionStrategy := configStrategy config in
  tasksById ← mergeRemoteTasks resolver statusList resolutionStrategy
                 (localTasksById localTasks) remoteTasks;
  let tasks := mapValues tasksById in
  let taskIds := map (fun t => id (task t)) tasks in
  let latestTaskDirectories := getLatestTaskStatesForIds observations taskIds in
  let finalTasks := filterTasksByLatestState tasks latestTaskDirectories in
  let outputFile := default "README.md" (envOr filename (envOr output (Some "README.md"))) in
  let outputPath := pathJoin cwd outputFile in
  let width := match config with
               | Some c => match maxColumnWidth c with
                           | Some w => if (w =? 0)%Z then 30%Z else w
                           | None => 30%Z
                           end
               | None => 30%Z
               end in
  let addTitle := negb (JS.truthyOpt filename) && negb (JS.truthyOpt output) in
  JS.Ok ({| export_tasks := finalTasks; export_statuses := statusList;
            export_path := outputPath; export_width := width;
            export_addTitle := addTitle |},
         [Log ("Exported board to " +:+ outputPath)]).

(** Two observations agree on everything the resolver looks at: the
    timestamp, the location kind and whether the origin is local. *)
Definition sameStanding (a b : LatestLocationResolver.LocationObservation) : Prop :=
  LatestLocationResolver.timestamp a = LatestLocationResolver.timestamp b /\
  LatestLocationResolver.locationKind a = LatestLocationResolver.locationKind b /\
  LatestLocationResolver.originRank (LatestLocationResolver.branch a) =
  LatestLocationResolver.originRank (LatestLocationResolver.branch b).




(** [task create --depends-on 1 --dep 999]. *)
Definition bothDependencyFlags : CreateOptions :=
  {| opt_description := None; opt_assignee := None; opt_status := None;
     opt_labels := None; opt_priority := None; opt_ac := Undefined;
     opt_acceptanceCriteria := Undefined; opt_plan := None; opt_draft := false;
     opt_parent := None; opt_dependsOn := Multiple ["1"]; opt_dep := Multiple ["999"] |}.

(** ** Vocabulary of the allocation statements *)




(** * Theorems *)

(** ** Numbers up to 2^53 *)

Lemma toNumber_exact (n : Z) :
  (0 <= n <= JS.MAX_SAFE_INTEGER + 1)%Z -> JS.toNumber n = n.
Proof.
  intros Hn. unfold JS.toNumber. destruct (Z.ltb_spec n 0); [lia|].
  unfold JS.roundMagnitude. destruct (Z.leb_spec n JS.MAX_SAFE_INTEGER); [reflexivity|].
  assert (Hmax : n = (JS.MAX_SAFE_INTEGER + 1)%Z) by lia.
  rewrite Hmax. vm_compute. reflexivity.
Qed.

(** [max + 1] is exact while [max] is a safe integer. *)
Lemma add_one_exact (m : Z) :
  (0 <= m <= JS.MAX_SAFE_INTEGER)%Z -> JS.add m 1 = (m + 1)%Z.
Proof. intros Hm. unfold JS.add. apply toNumber_exact. lia. Qed.

Lemma numberToString_exact (n : Z) :
  (0 <= n <= JS.MAX_SAFE_INTEGER + 1)%Z -> JS.numberToString n = JS.decimalText n.
Proof.
  intros Hn. unfold JS.numberToString. rewrite (Z.abs_eq n) by lia.
  destruct (Z.leb_spec n JS.MAX_SAFE_INTEGER); [reflexivity|].
  assert (Hmax : n = (JS.MAX_SAFE_INTEGER + 1)%Z) by lia.
  rewrite Hmax. vm_compute. reflexivity.
Qed.

Lemma roundMagnitude_above (n : Z) :
  (JS.MAX_SAFE_INTEGER < n)%Z -> (JS.MAX_SAFE_INTEGER < JS.roundMagnitude n)%Z.
Proof.
  intros Hn. unfold JS.roundMagnitude.
  destruct (Z.leb_spec n JS.MAX_SAFE_INTEGER); [lia|].
  assert (Hpos : (0 < n)%Z) by (unfold JS.MAX_SAFE_INTEGER in Hn; lia).
  assert (Hlog : (53 <= Z.log2 n)%Z).
  { change 53%Z with (Z.log2 (2 ^ 53)). apply Z.log2_le_mono.
    unfold JS.MAX_SAFE_INTEGER in Hn. lia. }
  set (e := (Z.log2 n - 52)%Z).
  assert (He : (1 <= e)%Z) by (unfold e; lia).
  set (q := Z.shiftr n e).
  assert (Hq : (2 ^ 52 <= q)%Z).
  { unfold q. rewrite Z.shiftr_div_pow2 by lia.
    apply Z.div_le_lower_bound; [apply Z.pow_pos_nonneg; lia|].
    rewrite <- Z.pow_add_r by lia. replace (e + 52)%Z with (Z.log2 n) by (unfold e; lia).
    apply Z.log2_spec, Hpos. }
  match goal with |- context [if ?c then q else (q + 1)%Z] =>
    set (q' := if c then q else (q + 1)%Z) end.
  assert (Hq' : (q <= q')%Z) by (unfold q'; destruct (_ || _); lia).
  rewrite Z.shiftl_mul_pow2 by lia.
  assert (Hpow : (2 ^ 1 <= 2 ^ e)%Z) by (apply Z.pow_le_mono_r; lia).
  apply Z.min_glb_lt; [|vm_compute; reflexivity].
  unfold JS.MAX_SAFE_INTEGER.
  assert (2 ^ 52 * 2 ^ 1 <= q' * 2 ^ e)%Z by (apply Z.mul_le_mono_nonneg; lia).
  change (2 ^ 53)%Z with (2 ^ 52 * 2 ^ 1)%Z. lia.
Qed.

(** A Number within the safe integers is the integer that was rounded:
    a bound on what [parseInt] reads is a bound on the digits read. *)
Lemma toNumber_safe (n : Z) :
  (0 <= n)%Z -> (JS.toNumber n <= JS.MAX_SAFE_INTEGER)%Z -> JS.toNumber n = n.
Proof.
  intros Hn Hsafe. unfold JS.toNumber in *. destruct (Z.ltb_spec n 0); [lia|].
  destruct (Z.le_gt_cases n JS.MAX_SAFE_INTEGER) as [Hle|Hgt].
  - unfold JS.roundMagnitude. destruct (Z.leb_spec n JS.MAX_SAFE_INTEGER); [reflexivity|lia].
  - apply roundMagnitude_above in Hgt. lia.
Qed.

(** The text of some Numbers beyond the safe integers, and the agreement
    of the shortest numeral with the decimal digits below. *)
Example numberToString_examples :
  JS.numberToString (2 ^ 53) = "9007199254740992" /\
  JS.numberToString (JS.toNumber (2 ^ 53 + 1)) = "9007199254740992" /\
  JS.numberToString (JS.toNumber (2 ^ 53 + 3)) = "9007199254740996" /\
  JS.numberToString (2 ^ 64) = "18446744073709552000" /\
  JS.numberToString (JS.toNumber (10 ^ 21)) = "1e+21" /\
  JS.numberToString (2 ^ 70) = "1.1805916207174113e+21" /\
  JS.numberToString (JS.toNumber (10 ^ 400)) = "Infinity" /\
  JS.largeText 9007199254740991 = "9007199254740991" /\
  JS.largeText 1234500 = "1234500".
Proof. repeat split; vm_compute; reflexivity. Qed.

(** The text of [max + 1] while [max] is a safe integer. *)
Lemma successor_text (m : Z) :
  (0 <= m <= JS.MAX_SAFE_INTEGER)%Z ->
  JS.numberToString (JS.add m 1) = JS.decimalText (m + 1).
Proof.
  intros Hm. rewrite add_one_exact by exact Hm. apply numberToString_exact. lia.
Qed.

(** ** Id allocation *)

Section MaxLoop.

Variable num : string -> option Z.

Lemma maxStep_loop_ge (ids : list string) (m0 : Z) :
  (m0 <= fold_left (maxStep num) ids m0)%Z.
Proof.
  revert m0. induction ids as [|i ids IH]; intros m0; simpl; [lia|].
  specialize (IH (maxStep num m0 i)). unfold maxStep in *.
  destruct (num i); lia.
Qed.

Lemma maxStep_loop_upper (ids : list string) (m0 : Z) (i : string) (n : Z) :
  In i ids -> num i = Some n -> (n <= fold_left (maxStep num) ids m0)%Z.
Proof.
  revert m0. induction ids as [|j ids IH]; intros m0 Hin Hn; [destruct Hin|].
  simpl. destruct Hin as [->|Hin].
  - pose proof (maxStep_loop_ge ids (maxStep num m0 i)) as Hge.
    assert (n <= maxStep num m0 i)%Z by (unfold maxStep; rewrite Hn; lia).
    lia.
  - apply IH; assumption.
Qed.

Lemma maxStep_loop_attained (ids : list string) (m0 : Z) :
  fold_left (maxStep num) ids m0 = m0 \/
  exists i, In i ids /\ num i = Some (fold_left (maxStep num) ids m0).
Proof.
  revert m0. induction ids as [|j ids IH]; intros m0; simpl; [left; reflexivity|].
  destruct (IH (maxStep num m0 j)) as [Heq|(i & Hin & Hi)].
  - rewrite Heq. unfold maxStep. destruct (num j) as [n|] eqn:Hj; [|left; reflexivity].
    destruct (Z.max_spec m0 n) as [[_ ->]|[_ ->]]; [right|left; reflexivity].
    exists j. split; [left; reflexivity|assumption].
  - right. exists i. split; [right; assumption|assumption].
Qed.

Lemma maxStep_loop_app (l1 l2 : list string) (m0 : Z) :
  fold_left (maxStep num) l2 (fold_left (maxStep num) l1 m0) = fold_left (maxStep num) (l1 ++ l2) m0.
Proof. symmetry. apply fold_left_app. Qed.

Lemma maxStep_loop_isMaxOf (ids : list string) :
  isMaxOf num ids (fold_left (maxStep num) ids 0%Z).
Proof.
  repeat split.
  - apply maxStep_loop_ge.
  - intros i n. apply maxStep_loop_upper.
  - apply maxStep_loop_attained.
Qed.

End MaxLoop.

Lemma isMaxOf_unique (num : string -> option Z) (ids : list string) (m m' : Z) :
  isMaxOf num ids m -> isMaxOf num ids m' -> m = m'.
Proof.
  intros (H0 & Hub & Hat) (H0' & Hub' & Hat').
  assert (m <= m')%Z.
  { destruct Hat as [->|(i & Hin & Hi)]; [assumption|]. eapply Hub'; eassumption. }
  assert (m' <= m)%Z.
  { destruct Hat' as [->|(i & Hin & Hi)]; [assumption|]. eapply Hub; eassumption. }
  lia.
Qed.

Lemma fold_left_ext_step {A B : Type} (f g : A -> B -> A) (l : list B) (a : A) :
  (forall x y, f x y = g x y) -> fold_left f l a = fold_left g l a.
Proof.
  intros Hfg. revert a. induction l as [|b l IH]; intros a; simpl; [reflexivity|].
  rewrite Hfg. apply IH.
Qed.


Lemma subtaskStep_maxStep (prefix : string) (max : Z) (taskId : string) :
  subtaskStep prefix max taskId = maxStep (subtaskOrdinal prefix) max taskId.
Proof.
  unfold subtaskStep, maxStep, subtaskOrdinal.
  destruct (JS.startsWith taskId (prefix +:+ ".")); [|reflexivity].
  destruct (JS.parseInt _) as [n|]; simpl; [|reflexivity].
  destruct (Z.ltb_spec max n); lia.
Qed.



Lemma nextId_subtask_fold (debug : option string) (core : Core) (parent : string) :
  JS.truthy parent = true ->
  fst (generateNextId debug core (Some parent)) =
  subtaskPrefix parent +:+ "." +:+
  JS.numberToString
    (JS.add (fold_left (maxStep (subtaskOrdinal (subtaskPrefix parent)))
               (map id (listTasks (filesystem core)) ++ scannedIds core) 0%Z) 1).
Proof.
  intros Hp. unfold generateNextId, scannedIds, subtaskPrefix. simpl JS.truthyOpt. rewrite Hp.
  simpl default.
  destruct (remoteTaskIds (gitOps core)) as [ids|e]; cbn [fst];
    rewrite !(fold_left_ext_step _ _ _ _ (subtaskStep_maxStep _));
    rewrite maxStep_loop_app; reflexivity.
Qed.

Lemma generateNextId_console (debug : option string) (core : Core) (parent : option string) :
  snd (generateNextId debug core parent) =
  match remoteTaskIds (gitOps core) with
  | JS.Ok _ => []
  | JS.Throw error =>
      if JS.truthyOpt debug
      then [Error ("Could not fetch remote task IDs: " +:+ error)]
      else []
  end.
Proof.
  unfold generateNextId.
  destruct (remoteTaskIds (gitOps core)); destruct (JS.truthyOpt parent); reflexivity.
Qed.


Lemma omap_branchFileId_In (files : list string) (i : string) :
  In i (omap (M := list) branchFileId files) <->
  exists f, In f files /\ branchFileId f = Some i.
Proof.
  rewrite <- list_elem_of_In, list_elem_of_omap.
  split; intros (f & Hf & Hi); exists f; split; try assumption; apply list_elem_of_In, Hf.
Qed.






(** C3. The subtask path reads the local tasks and the branch files but
    not the local drafts, which the top-level path does read: with local
    tasks task-1 and task-2 and the local draft task-2.1, the id allocated
    under task-2 is task-2.1 again (task-2.2 once task-2.1 is seen on a
    branch), while the top-level path counts a draft task-5 and answers
    task-6.  In general the subtask path returns [<prefix>.<m+1>] for the
    maximum [m] over the local tasks and the branch files only, [m + 1]
    being the sum as the code computes it. *)
Theorem generateNextId_subtask_ignores_drafts :
  In "task-2.1" (visibleIds draftSubtaskCore) /\
  fst (generateNextId None draftSubtaskCore (Some "task-2")) = "task-2.1" /\
  fst (generateNextId None sampleCore (Some "task-2")) = "task-2.2" /\
  fst (generateNextId None draftOnlyCore None) = "task-6" /\
  (forall (debug : option string) (core : Core) (parent : string),
     JS.truthy parent = true ->
     exists m : Z,
       isMaxOf (subtaskOrdinal (subtaskPrefix parent))
         (map id (listTasks (filesystem core)) ++ scannedIds core) m /\
       fst (generateNextId debug core (Some parent)) =
       subtaskPrefix parent +:+ "." +:+ JS.numberToString (JS.add m 1)).
Proof.
  split; [vm_compute; tauto|].
  split; [reflexivity|].
  split; [reflexivity|].
  split; [reflexivity|].
  intros debug core parent Hp. eexists. split; [apply maxStep_loop_isMaxOf|].
  apply nextId_subtask_fold, Hp.
Qed.

(** C5, as the code has it.  When the fetch or the enumeration of the
    branches fails, [generateNextId] still returns an id, the one it
    computes from the local data alone; the failure is written to the
    console only when the environment variable DEBUG is set, and is
    silent otherwise. *)
Theorem generateNextId_offline :
  forall (debug : option string) (core : Core) (parent : option string) (e : string),
    fetch (gitOps core) = JS.Throw e \/
    (fetch (gitOps core) = JS.Ok tt /\ listAllBranches (gitOps core) = JS.Throw e) ->
    generateNextId debug core parent =
    (fst (generateNextId debug (localOnly core) parent),
     if JS.truthyOpt debug
     then [Error ("Could not fetch remote task IDs: " +:+ e)]
     else []).
Proof.
  intros debug core parent e Hfail.
  assert (Hremote : remoteTaskIds (gitOps core) = JS.Throw e).
  { unfold remoteTaskIds. destruct Hfail as [->|[-> ->]]; reflexivity. }
  unfold generateNextId. rewrite Hremote. simpl.
  destruct (JS.truthyOpt parent); reflexivity.
Qed.

Lemma generateNextId_offline_witness :
  generateNextId (Some "1") offlineCore None =
  ("task-3", [Error "Could not fetch remote task IDs: unable to access remote"]).
Proof.
  apply (generateNextId_offline (Some "1") offlineCore None "unable to access remote").
  left. reflexivity.
Defined.

(** C5, counterexample.  The fetch fails, DEBUG is not set: an id is
    returned and nothing at all is written to the console. *)
Lemma offline_without_DEBUG_is_silent :
  fetch (gitOps offlineCore) = JS.Throw "unable to access remote" /\
  generateNextId None offlineCore None = ("task-3", []).
Proof. split; reflexivity. Qed.

(** ** Dependencies of a new task *)

Lemma truthy_true_iff (s : string) : JS.truthy s = true <-> s <> EmptyString.
Proof. destruct s; simpl; split; congruence. Qed.

Lemma flat_map_map_pieces (l : list string) :
  flat_map (fun dep => map JS.trim (JS.split "," dep)) l =
  map JS.trim (flat_map (JS.split ",") l).
Proof.
  induction l as [|s l IH]; simpl; [reflexivity|].
  rewrite IH, map_app. reflexivity.
Qed.

Lemma normalizeDependencies_pieces (v : OptionValue) :
  normalizeDependencies v =
  map withTaskPrefix (List.filter JS.truthy (map JS.trim (rawPieces v))).
Proof.
  destruct v as [|s|l]; simpl.
  - reflexivity.
  - unfold normalizeDependencies. simpl. destruct s; reflexivity.
  - unfold normalizeDependencies. simpl. rewrite flat_map_map_pieces. reflexivity.
Qed.

Lemma withTaskPrefix_startsWith (dep : string) :
  JS.startsWith (withTaskPrefix dep) "task-" = true.
Proof.
  unfold withTaskPrefix. destruct (JS.startsWith dep "task-") eqn:H; [exact H|].
  destruct dep; reflexivity.
Qed.

Lemma validateDependencies_invalid (deps : list string) (core : Core) :
  snd (validateDependencies deps core) =
  List.filter (fun dep => negb (bool_decide (dep ∈ localIds core))) deps.
Proof.
  unfold validateDependencies, localIds. destruct deps as [|d deps]; [reflexivity|].
  cbn [snd]. apply filter_ext. intros x. f_equal.
  apply bool_decide_ext. apply elem_of_list_to_set.
Qed.

Lemma validateDependencies_valid (deps : list string) (core : Core) :
  fst (validateDependencies deps core) =
  List.filter (fun dep => bool_decide (dep ∈ localIds core)) deps.
Proof.
  unfold validateDependencies, localIds. destruct deps as [|d deps]; [reflexivity|].
  cbn [fst]. apply filter_ext. intros x.
  apply bool_decide_ext. apply elem_of_list_to_set.
Qed.

Lemma filter_negb_nil_iff {A : Type} (p : A -> bool) (l : list A) :
  List.filter (fun x => negb (p x)) l = [] <-> List.Forall (fun x => p x = true) l.
Proof.
  induction l as [|a l IH]; simpl.
  - split; [constructor|reflexivity].
  - destruct (p a) eqn:Hp; simpl.
    + rewrite IH. split; [intros H; constructor; assumption|intros H; inversion H; assumption].
    + split; [discriminate|]. intros H. inversion H; congruence.
Qed.

Lemma filter_all_true {A : Type} (p : A -> bool) (l : list A) :
  List.Forall (fun x => p x = true) l -> List.filter p l = l.
Proof.
  induction 1 as [|a l Ha _ IH]; simpl; [reflexivity|]. rewrite Ha, IH. reflexivity.
Qed.

Lemma Forall_bool_decide_In (ids deps : list string) :
  List.Forall (fun d => bool_decide (d ∈ ids) = true) deps <->
  List.Forall (fun d => In d ids) deps.
Proof.
  split; intros H; eapply List.Forall_impl; try exact H; intros d Hd; simpl in *.
  - apply bool_decide_eq_true in Hd. apply list_elem_of_In, Hd.
  - apply bool_decide_eq_true. apply list_elem_of_In, Hd.
Qed.

(** What [task create] does once the id is known and the task is built,
    in terms of the validated dependencies. *)
Lemma taskCreate_cases (debug : option string) (today : string) (ser : Serializer)
    (filepath : bool -> Task -> string) (core : Core) (taskTitle : string)
    (options : CreateOptions) :
  let deps := normalizeDependencies (dependencyOption options) in
  let out := taskCreate debug today ser filepath core taskTitle options in
  (List.Forall (fun d => In d (localIds core)) deps /\
   exitCode out = None /\
   exists t, created out = Some (opt_draft options, t) /\ dependencies t = deps) \/
  (~ List.Forall (fun d => In d (localIds core)) deps /\
   exitCode out = Some 1%Z /\ created out = None).
Proof.
  intros deps out. subst out. unfold taskCreate.
  destruct (generateNextId debug core (opt_parent options)) as [taskId console0].
  set (task0 := buildTaskFromOptions today taskId taskTitle options).
  assert (Hdeps : dependencies task0 = deps) by reflexivity.
  rewrite Hdeps.
  assert (Hdescr : forall t text, dependencies (withDescription t text) = dependencies t)
    by reflexivity.
  destruct deps as [|d deps'] eqn:Edeps.
  - left. split; [constructor|]. split; [reflexivity|].
    eexists. split; [reflexivity|].
    destruct (optionTruthy _), (JS.truthyOpt (opt_plan options));
      rewrite ?Hdescr; exact Hdeps.
  - rewrite <- Edeps.
    pose proof (validateDependencies_invalid deps core) as Hinv.
    pose proof (validateDependencies_valid deps core) as Hval.
    destruct (validateDependencies deps core) as [valid invalid]. cbn [fst snd] in Hinv, Hval.
    destruct invalid as [|bad invalid'].
    + symmetry in Hinv. apply filter_negb_nil_iff in Hinv.
      assert (Hvalid : valid = deps) by (rewrite Hval; apply filter_all_true, Hinv).
      apply Forall_bool_decide_In in Hinv.
      left. split; [exact Hinv|]. split; [reflexivity|].
      eexists. split; [reflexivity|].
      destruct (optionTruthy _), (JS.truthyOpt (opt_plan options));
        rewrite ?Hdescr; exact Hvalid.
    + right. split; [|split; reflexivity].
      intros Hall. apply Forall_bool_decide_In in Hall.
      apply filter_negb_nil_iff in Hall. congruence.
Qed.

Lemma normalizeDependencies_In (values : list string) (d : string) :
  In d (normalizeDependencies (Multiple values)) <->
  exists value piece,
    In value values /\ In piece (JS.split "," value) /\
    JS.trim piece <> EmptyString /\
    d = (if JS.startsWith (JS.trim piece) "task-" then JS.trim piece
         else "task-" +:+ JS.trim piece).
Proof.
  rewrite normalizeDependencies_pieces, in_map_iff. simpl rawPieces. split.
  - intros (x & <- & Hx). apply filter_In in Hx. destruct Hx as [Hx Ht].
    apply in_map_iff in Hx. destruct Hx as (piece & <- & Hp).
    apply in_flat_map in Hp. destruct Hp as (value & Hv & Hp).
    exists value, piece. rewrite <- truthy_true_iff. auto.
  - intros (value & piece & Hv & Hp & Ht & ->). exists (JS.trim piece).
    split; [reflexivity|]. apply filter_In. split; [|apply truthy_true_iff, Ht].
    apply in_map, in_flat_map. exists value. auto.
Qed.

(** C10, as the code has it.  Dependencies are normalized in three
    steps: the values are split on commas, the pieces trimmed, the empty
    ones dropped, and each is prefixed with [task-] unless it already
    starts so.  The dependencies [task create] reads are those of
    [--depends-on], and those of [--dep] only when [--depends-on] is not
    given.  The task (or draft) is created, carrying exactly the
    dependencies read, if and only if every one of them is the id of a
    local task or draft; otherwise nothing is created and the exit code is
    set to 1. *)
Theorem taskCreate_validates_dependencies :
  normalizeDependencies (Multiple [" 1, task-2 ,,"; "3"]) = ["task-1"; "task-2"; "task-3"] /\
  normalizeDependencies (Single "task-4,5") = ["task-4"; "task-5"] /\
  (forall (values : list string) (d : string),
     In d (normalizeDependencies (Multiple values)) <->
     exists value piece,
       In value values /\ In piece (JS.split "," value) /\
       JS.trim piece <> EmptyString /\
       d = (if JS.startsWith (JS.trim piece) "task-" then JS.trim piece
            else "task-" +:+ JS.trim piece)) /\
  (forall (debug : option string) (today : string) (ser : Serializer)
          (filepath : bool -> Task -> string) (core : Core) (taskTitle : string)
          (options : CreateOptions),
     let read := if optionTruthy (opt_dependsOn options)
                 then opt_dependsOn options else opt_dep options in
     let deps := normalizeDependencies read in
     let out := taskCreate debug today ser filepath core taskTitle options in
     ((exists t, created out = Some (opt_draft options, t) /\ dependencies t = deps) <->
      List.Forall (fun d => In d (localIds core)) deps) /\
     (~ List.Forall (fun d => In d (localIds core)) deps ->
      created out = None /\ exitCode out = Some 1%Z) /\
     (List.Forall (fun d => In d (localIds core)) deps -> exitCode out = None)).
Proof.
  split; [reflexivity|]. split; [reflexivity|].
  split; [apply normalizeDependencies_In|].
  intros debug today ser filepath core taskTitle options. cbv zeta.
  pose proof (taskCreate_cases debug today ser filepath core taskTitle options) as H.
  cbv zeta in H.
  change (dependencyOption options)
    with (if optionTruthy (opt_dependsOn options)
          then opt_dependsOn options else opt_dep options) in H.
  destruct H as [(Hall & Hcode & t & Hc & Hd)|(Hnot & Hcode & Hc)].
  - split; [split; [intros _; exact Hall|intros _; exists t; auto]|].
    split; [intros Hn; contradiction|intros _; exact Hcode].
  - split; [split; [intros (t & Ht & _); congruence|intros H; contradiction]|].
    split; [intros _; auto|intros H; contradiction].
Qed.

(** C10, counterexample.  [task create --depends-on 1 --dep 999] beside
    the local tasks task-1 and task-2: the dependency task-999 exists
    nowhere, yet the task is created, with the one dependency task-1, and
    no exit code is set: the values of [--dep] were not read. *)
Lemma taskCreate_reads_one_dependency_option :
  normalizeDependencies (opt_dep bothDependencyFlags) = ["task-999"] /\
  includes (localIds sampleCore) "task-999" = false /\
  option_map (fun c => (fst c, dependencies (snd c)))
    (created (taskCreate None "2025-06-30" identitySerializer samplePath sampleCore
                "New task" bothDependencyFlags)) = Some (false, ["task-1"]) /\
  exitCode (taskCreate None "2025-06-30" identitySerializer samplePath sampleCore
              "New task" bothDependencyFlags) = None.
Proof. repeat split; vm_compute; reflexivity. Qed.

(** ** Grouped task list *)

Section JsMapLaws.

Context {V : Type}.

Lemma mapGet_mapSet_same (k : string) (v : V) (m : JsMap V) :
  mapGet k (mapSet k v m) = Some v.
Proof.
  induction m as [|[k' v'] m IH]; simpl.
  - rewrite String.eqb_refl. reflexivity.
  - destruct (String.eqb k' k) eqn:E; simpl; rewrite E; [reflexivity|exact IH].
Qed.

Lemma mapGet_mapSet_other (k k' : string) (v : V) (m : JsMap V) :
  k <> k' -> mapGet k' (mapSet k v m) = mapGet k' m.
Proof.
  intros Hne. induction m as [|[k0 v0] m IH]; simpl.
  - apply String.eqb_neq in Hne. rewrite Hne. reflexivity.
  - destruct (String.eqb k0 k) eqn:E; simpl.
    + apply String.eqb_eq in E. subst k0.
      apply String.eqb_neq in Hne. rewrite Hne. reflexivity.
    + rewrite IH. reflexivity.
Qed.

Lemma mapHas_includes (k : string) (m : JsMap V) :
  mapHas k m = includes (mapKeys m) k.
Proof.
  unfold mapHas, includes, mapKeys. induction m as [|[k' v'] m IH]; simpl; [reflexivity|].
  rewrite (String.eqb_sym k k'). destruct (String.eqb k' k); [reflexivity|exact IH].
Qed.

Lemma mapKeys_mapSet (k : string) (v : V) (m : JsMap V) :
  mapKeys (mapSet k v m) = if mapHas k m then mapKeys m else mapKeys m ++ [k].
Proof.
  unfold mapHas, mapKeys. induction m as [|[k' v'] m IH]; simpl; [reflexivity|].
  destruct (String.eqb k' k) eqn:E; simpl; [reflexivity|].
  rewrite IH. destruct (mapGet k m); reflexivity.
Qed.

End JsMapLaws.

Lemma includes_In (l : list string) (s : string) : includes l s = true <-> In s l.
Proof.
  unfold includes. rewrite existsb_exists. split.
  - intros (x & Hx & E). apply String.eqb_eq in E. subst. exact Hx.
  - intros H. exists s. split; [exact H|apply String.eqb_refl].
Qed.

Lemma includes_false (l : list string) (s : string) : includes l s = false <-> ~ In s l.
Proof.
  rewrite <- includes_In. destruct (includes l s); split; congruence.
Qed.

Lemma includes_app (l1 l2 : list string) (s : string) :
  includes (l1 ++ l2) s = includes l1 s || includes l2 s.
Proof. unfold includes. apply existsb_app. Qed.

Lemma firstSeen_In (l : list string) (s : string) : In s (firstSeen l) <-> In s l.
Proof.
  induction l as [|x l IH]; simpl; [tauto|].
  rewrite filter_In, IH, negb_true_iff, String.eqb_neq.
  destruct (String.eqb_spec x s); intuition congruence.
Qed.

Lemma includes_firstSeen (l : list string) (s : string) :
  includes (firstSeen l) s = includes l s.
Proof.
  destruct (includes l s) eqn:E.
  - apply includes_In, firstSeen_In, includes_In, E.
  - apply includes_false. rewrite firstSeen_In. apply includes_false, E.
Qed.

Lemma firstSeen_snoc (l : list string) (x : string) :
  firstSeen (l ++ [x]) = if includes l x then firstSeen l else firstSeen l ++ [x].
Proof.
  induction l as [|a l IH]; simpl; [reflexivity|].
  rewrite IH. unfold includes at 2. simpl.
  fold (includes l x).
  destruct (String.eqb_spec x a) as [->|Hne]; simpl.
  - destruct (includes l a); [reflexivity|].
    rewrite List.filter_app. simpl. rewrite String.eqb_refl. simpl.
    rewrite app_nil_r. reflexivity.
  - destruct (includes l x); [reflexivity|].
    rewrite List.filter_app. simpl.
    apply String.eqb_neq in Hne. rewrite Hne. reflexivity.
Qed.

Lemma firstSeen_NoDup (l : list string) : List.NoDup (firstSeen l).
Proof.
  induction l as [|x l IH]; simpl; constructor.
  - rewrite filter_In, String.eqb_refl. intros [_ H]. discriminate.
  - apply List.NoDup_filter, IH.
Qed.

Lemma orElse_empty (s : string) : JS.orElse s "" = s.
Proof. destruct s; reflexivity. Qed.

Lemma groupByStatus_snoc (l : list Task) (t : Task) :
  groupByStatus (l ++ [t]) =
  mapSet (status t) (default [] (mapGet (status t) (groupByStatus l)) ++ [t])
    (groupByStatus l).
Proof.
  unfold groupByStatus. rewrite fold_left_app. simpl. rewrite orElse_empty. reflexivity.
Qed.

Lemma groupOf_snoc (l : list Task) (t : Task) (s : string) :
  groupOf (l ++ [t]) s = groupOf l s ++ (if String.eqb (status t) s then [t] else []).
Proof. unfold groupOf. rewrite List.filter_app. reflexivity. Qed.

Lemma groupByStatus_get (l : list Task) (s : string) :
  mapGet s (groupByStatus l) =
  match groupOf l s with
  | [] => None
  | g => Some g
  end.
Proof.
  induction l as [|t l IH] using rev_ind; [reflexivity|].
  rewrite groupByStatus_snoc, groupOf_snoc.
  destruct (String.eqb_spec (status t) s) as [<-|Hne].
  - rewrite mapGet_mapSet_same, IH.
    destruct (groupOf l (status t)) as [|a g]; reflexivity.
  - rewrite mapGet_mapSet_other by exact Hne. rewrite app_nil_r. exact IH.
Qed.

Lemma groupByStatus_keys (l : list Task) :
  mapKeys (groupByStatus l) = firstSeen (map status l).
Proof.
  induction l as [|t l IH] using rev_ind; [reflexivity|].
  rewrite groupByStatus_snoc, mapKeys_mapSet, map_app. cbn [map].
  rewrite firstSeen_snoc, mapHas_includes, IH, includes_firstSeen. reflexivity.
Qed.

Lemma groupOf_nonempty (l : list Task) (s : string) :
  includes (map status l) s = true <-> groupOf l s <> [].
Proof.
  rewrite includes_In, in_map_iff. unfold groupOf. split.
  - intros (t & <- & Hin) Hnil.
    assert (In t (List.filter (fun t0 => String.eqb (status t0) (status t)) l))
      by (apply filter_In; split; [exact Hin|apply String.eqb_refl]).
    rewrite Hnil in H. destruct H.
  - intros Hne. destruct (List.filter _ l) as [|t g] eqn:E; [congruence|].
    assert (Hin : In t (List.filter (fun t0 => String.eqb (status t0) s) l))
      by (rewrite E; left; reflexivity).
    apply filter_In in Hin. destruct Hin as [Hin Hs]. apply String.eqb_eq in Hs.
    exists t. auto.
Qed.

Lemma groupByStatus_has (l : list Task) (s : string) :
  mapHas s (groupByStatus l) = includes (map status l) s.
Proof. rewrite mapHas_includes, groupByStatus_keys. apply includes_firstSeen. Qed.

(** The printed groups are the ordered statuses, each with its tasks. *)
Lemma listGroups_map (config : option BacklogConfig) (filtered : list Task) :
  listGroups config filtered =
  map (fun s => (s, groupOf filtered s))
    (orderedStatuses (configStatuses config) (groupByStatus filtered)).
Proof.
  unfold listGroups.
  assert (Hall : forall s,
            In s (orderedStatuses (configStatuses config) (groupByStatus filtered)) ->
            mapGet s (groupByStatus filtered) = Some (groupOf filtered s)).
  { intros s Hs. unfold orderedStatuses in Hs. apply in_app_or in Hs.
    assert (Hhas : mapHas s (groupByStatus filtered) = true).
    { destruct Hs as [Hs|Hs]; apply filter_In in Hs; [tauto|].
      destruct Hs as [Hs _]. rewrite mapHas_includes. apply includes_In, Hs. }
    rewrite groupByStatus_has in Hhas. apply groupOf_nonempty in Hhas.
    rewrite groupByStatus_get. destruct (groupOf filtered s); congruence. }
  induction (orderedStatuses (configStatuses config) (groupByStatus filtered))
    as [|s l IH]; [reflexivity|].
  simpl. rewrite (Hall s) by (left; reflexivity).
  f_equal. apply IH.
  intros s' Hs'. apply Hall. right. exact Hs'.
Qed.

Lemma orderedStatuses_spec (statusOrder : list string) (filtered : list Task) :
  orderedStatuses statusOrder (groupByStatus filtered) =
  List.filter (fun s => includes (map status filtered) s) statusOrder ++
  List.filter (fun s => negb (includes statusOrder s)) (firstSeen (map status filtered)).
Proof.
  unfold orderedStatuses. rewrite groupByStatus_keys. f_equal.
  apply filter_ext. intros s. apply groupByStatus_has.
Qed.

Lemma filter_split_Permutation {A : Type} (p : A -> bool) (l : list A) :
  Permutation (List.filter p l ++ List.filter (fun x => negb (p x)) l) l.
Proof.
  induction l as [|a l IH]; simpl; [constructor|].
  destruct (p a); simpl.
  - constructor. exact IH.
  - apply Permutation_sym, Permutation_cons_app, Permutation_sym, IH.
Qed.

Lemma groups_partition (keys : list string) :
  List.NoDup keys ->
  forall l : list Task,
    (forall t, In t l -> In (status t) keys) ->
    Permutation (flat_map (groupOf l) keys) l.
Proof.
  induction 1 as [|k ks Hk Hnd IH]; intros l Hcover.
  - destruct l as [|t l]; [constructor|]. destruct (Hcover t (or_introl eq_refl)).
  - simpl.
    set (others := List.filter (fun t => negb (String.eqb (status t) k)) l).
    assert (Hrest : flat_map (groupOf l) ks = flat_map (groupOf others) ks).
    { rewrite !flat_map_concat_map. f_equal. apply map_ext_in. intros s Hs.
      unfold groupOf, others. clear -Hs Hk. induction l as [|t l IHl]; simpl; [reflexivity|].
      destruct (String.eqb_spec (status t) k) as [E|E]; simpl.
      - destruct (String.eqb_spec (status t) s) as [E'|E']; [|exact IHl].
        exfalso. apply Hk. congruence.
      - rewrite IHl. reflexivity. }
    rewrite Hrest.
    transitivity (groupOf l k ++ others); [|apply filter_split_Permutation].
    apply Permutation_app_head. apply IH.
    intros t Ht. unfold others in Ht. apply filter_In in Ht. destruct Ht as [Ht Hs].
    apply negb_true_iff, String.eqb_neq in Hs.
    destruct (Hcover t Ht) as [E|Hin]; [congruence|exact Hin].
Qed.

Lemma concat_groups (filtered : list Task) (keys : list string) :
  concat (map snd (map (fun s => (s, groupOf filtered s)) keys)) =
  flat_map (groupOf filtered) keys.
Proof. rewrite map_map, flat_map_concat_map. reflexivity. Qed.

Lemma count_occ_filter_kept (p : string -> bool) (l : list string) (s : string) :
  p s = true ->
  count_occ string_dec (List.filter p l) s = count_occ string_dec l s.
Proof.
  intros Hp. induction l as [|x l IH]; simpl; [reflexivity|].
  destruct (string_dec x s) as [->|Hne].
  - rewrite Hp. simpl. destruct (string_dec s s); [|congruence]. rewrite IH. reflexivity.
  - destruct (p x); simpl; [|exact IH].
    destruct (string_dec x s); [congruence|exact IH].
Qed.

(** How often the group of a status is printed. *)
Lemma orderedStatuses_count (statusOrder : list string) (filtered : list Task) (s : string) :
  In s (map status filtered) ->
  count_occ string_dec (orderedStatuses statusOrder (groupByStatus filtered)) s =
  if includes statusOrder s then count_occ string_dec statusOrder s else 1.
Proof.
  intros Hs. rewrite orderedStatuses_spec, count_occ_app.
  rewrite count_occ_filter_kept by (apply includes_In, Hs).
  destruct (includes statusOrder s) eqn:E.
  - rewrite (proj1 (count_occ_not_In string_dec
                      (List.filter (fun x => negb (includes statusOrder x))
                         (firstSeen (map status filtered))) s)); [lia|].
    intros Hin. apply filter_In in Hin. destruct Hin as [_ Hin].
    rewrite E in Hin. discriminate.
  - rewrite (proj1 (count_occ_not_In string_dec statusOrder s))
      by (apply includes_false, E).
    rewrite count_occ_filter_kept by (rewrite E; reflexivity).
    apply NoDup_count_occ'; [apply firstSeen_NoDup|apply firstSeen_In, Hs].
Qed.

(** C4, as the code has it.  The groups of the plain task list are first
    the configured statuses that occur among the tasks, in configured
    order, then the remaining statuses in the order of their first
    occurrence; each group holds the tasks of its status in input order,
    and the group of every task is printed: no task is dropped.  The
    group of a status is printed as often as the status order lists it,
    and once when the status order does not list it; so for a status order
    without repeated entries no status is printed twice and the groups
    together hold each task exactly as often as the input does. *)
Theorem listGroups_order_and_partition :
  forall (config : option BacklogConfig) (filtered : list Task),
    let statusOrder := configStatuses config in
    let out := listGroups config filtered in
    map fst out =
      List.filter (fun s => includes (map status filtered) s) statusOrder ++
      List.filter (fun s => negb (includes statusOrder s)) (firstSeen (map status filtered)) /\
    (forall s g, In (s, g) out -> g = groupOf filtered s /\ g <> []) /\
    (forall t, In t filtered -> In (status t, groupOf filtered (status t)) out) /\
    (forall t, In t filtered ->
       count_occ string_dec (map fst out) (status t) =
       if includes statusOrder (status t)
       then count_occ string_dec statusOrder (status t) else 1) /\
    (List.NoDup statusOrder ->
     List.NoDup (map fst out) /\ Permutation (concat (map snd out)) filtered).
Proof.
  intros config filtered statusOrder out.
  assert (Hout : out = map (fun s => (s, groupOf filtered s))
                         (orderedStatuses statusOrder (groupByStatus filtered)))
    by apply listGroups_map.
  assert (Hfst : map fst out = orderedStatuses statusOrder (groupByStatus filtered)).
  { rewrite Hout, map_map. simpl. apply map_id. }
  assert (Hkeys : map fst out =
            List.filter (fun s => includes (map status filtered) s) statusOrder ++
            List.filter (fun s => negb (includes statusOrder s)) (firstSeen (map status filtered))).
  { rewrite Hfst. apply orderedStatuses_spec. }
  assert (Hmem : forall s, In s (map fst out) <-> In s (map status filtered)).
  { intros s. rewrite Hkeys, in_app_iff, !filter_In, firstSeen_In, includes_In, negb_true_iff.
    destruct (includes statusOrder s) eqn:E.
    - apply includes_In in E. intuition congruence.
    - intuition congruence. }
  split; [exact Hkeys|].
  split.
  { intros s g Hin. rewrite Hout in Hin. apply in_map_iff in Hin.
    destruct Hin as (s' & E & Hs'). injection E as <- <-. split; [reflexivity|].
    apply groupOf_nonempty, includes_In, Hmem. rewrite Hfst. exact Hs'. }
  split.
  { intros t Ht. rewrite Hout. apply in_map_iff. exists (status t). split; [reflexivity|].
    rewrite <- Hfst. apply Hmem, in_map, Ht. }
  split.
  { intros t Ht. rewrite Hfst. apply orderedStatuses_count, in_map, Ht. }
  intros Hnd.
  assert (Hnodup : List.NoDup (map fst out)).
  { rewrite Hkeys. apply List.NoDup_app.
    - apply List.NoDup_filter, Hnd.
    - apply List.NoDup_filter, firstSeen_NoDup.
    - intros s H1 H2. apply filter_In in H1, H2.
      destruct H1 as [H1 _], H2 as [_ H2].
      apply negb_true_iff, includes_false in H2. contradiction. }
  split; [exact Hnodup|].
  rewrite Hout, concat_groups. apply groups_partition.
  - rewrite <- Hfst. exact Hnodup.
  - intros t Ht. rewrite <- Hfst. apply Hmem, in_map, Ht.
Qed.

Lemma listGroups_order_and_partition_witness :
  map fst (listGroups defaultConfig sampleTasks) = ["To Do"; "Done"; "Blocked"] /\
  Permutation (concat (map snd (listGroups defaultConfig sampleTasks))) sampleTasks.
Proof.
  assert (Hnd : List.NoDup (configStatuses defaultConfig)).
  { simpl. repeat constructor; simpl; intuition discriminate. }
  destruct (listGroups_order_and_partition defaultConfig sampleTasks)
    as (Hkeys & _ & _ & _ & Hexact).
  split; [exact Hkeys|exact (proj2 (Hexact Hnd))].
Defined.

(** C4, counterexample.  With To Do configured twice, the one task is
    printed in two groups. *)
Lemma listGroups_repeated_status :
  listGroups repeatedStatusConfig [sampleTask "task-1" "To Do"] =
  [("To Do", [sampleTask "task-1" "To Do"]); ("To Do", [sampleTask "task-1" "To Do"])] /\
  taskListPlain repeatedStatusConfig [sampleTask "task-1" "To Do"] =
  [Log "To Do:"; Log "  task-1 - Sample"; Log "";
   Log "To Do:"; Log "  task-1 - Sample"; Log ""].
Proof. split; reflexivity. Qed.

(** ** Latest location of a task *)

Section LocationLaws.

Import LatestLocationResolver.

Lemma lexi_Gt (c1 c2 : comparison) :
  lexi c1 c2 = Gt <-> c1 = Gt \/ (c1 = Eq /\ c2 = Gt).
Proof. destruct c1; simpl; intuition congruence. Qed.

Lemma lexi_Eq (c1 c2 : comparison) :
  lexi c1 c2 = Eq <-> c1 = Eq /\ c2 = Eq.
Proof. destruct c1; simpl; intuition congruence. Qed.

Lemma lexi_CompOpp (c1 c2 : comparison) :
  CompOpp (lexi c1 c2) = lexi (CompOpp c1) (CompOpp c2).
Proof. destruct c1; reflexivity. Qed.

Lemma compareObservations_antisym (a b : LocationObservation) :
  compareObservations a b = CompOpp (compareObservations b a).
Proof.
  unfold compareObservations. rewrite !lexi_CompOpp.
  rewrite <- !Z.compare_antisym. reflexivity.
Qed.

Lemma kindRank_inj (k k' : LocationKind) : kindRank k = kindRank k' -> k = k'.
Proof. destruct k, k'; simpl; intros H; try reflexivity; discriminate. Qed.

(** Observations that rank alike agree on timestamp, kind and origin. *)
Lemma compareObservations_Eq (a b : LocationObservation) :
  compareObservations a b = Eq <-> sameStanding a b.
Proof.
  unfold compareObservations, sameStanding. rewrite !lexi_Eq, !Z.compare_eq_iff.
  split; intros (Ht & Hk & Ho); repeat split; try assumption.
  - apply kindRank_inj, Hk.
  - rewrite Hk. reflexivity.
Qed.

Lemma compareObservations_refl (a : LocationObservation) :
  compareObservations a a = Eq.
Proof. apply compareObservations_Eq. repeat split. Qed.

Lemma compareObservations_Gt_trans (a b c : LocationObservation) :
  compareObservations a b = Gt -> compareObservations b c = Gt ->
  compareObservations a c = Gt.
Proof.
  unfold compareObservations. rewrite !lexi_Gt.
  rewrite !Z.compare_eq_iff, !Z.compare_gt_iff.
  intros H1 H2.
  destruct H1 as [H1|(E1 & [H1|(E1' & H1)])];
  destruct H2 as [H2|(E2 & [H2|(E2' & H2)])];
    try (left; lia);
    try (right; split; [lia|]; left; lia).
  right. split; [lia|]. right. split; [lia|]. lia.
Qed.

Lemma compareObservations_timestamp (o r : LocationObservation) :
  compareObservations o r <> Gt ->
  (timestamp o <= timestamp r)%Z /\
  (timestamp o = timestamp r ->
   (kindRank (locationKind o) <= kindRank (locationKind r))%Z /\
   (kindRank (locationKind o) = kindRank (locationKind r) ->
    (originRank (branch o) <= originRank (branch r))%Z)).
Proof.
  unfold compareObservations. intros H.
  destruct (Z.compare_spec (timestamp o) (timestamp r)) as [Et|Lt|Gt];
    simpl in H; [|split; [lia|intros; lia]|congruence].
  split; [lia|]. intros _.
  destruct (Z.compare_spec (kindRank (locationKind o)) (kindRank (locationKind r)))
    as [Ek|Lk|Gk]; simpl in H; [|split; [lia|intros; lia]|congruence].
  split; [lia|]. intros _.
  destruct (Z.compare_spec (originRank (branch o)) (originRank (branch r)))
    as [Eo|Lo|Go]; simpl in H; [lia|lia|congruence].
Qed.


Lemma resolve_snoc (obs : list LocationObservation) (o : LocationObservation) :
  resolve (obs ++ [o]) = resolveStep (resolve obs) o.
Proof. unfold resolve. rewrite fold_left_app. reflexivity. Qed.

Lemma resolveStep_lookup_other (m : gmap string LocationObservation)
    (o : LocationObservation) (i : string) :
  taskId o <> i -> resolveStep m o !! i = m !! i.
Proof.
  intros Hne. unfold resolveStep.
  destruct (m !! taskId o); apply lookup_insert_ne, Hne.
Qed.

Lemma resolveStep_lookup_same (m : gmap string LocationObservation)
    (o : LocationObservation) :
  resolveStep m o !! taskId o =
  Some (match m !! taskId o with
        | Some current => prefer current o
        | None => o
        end).
Proof.
  unfold resolveStep. destruct (m !! taskId o); apply lookup_insert_eq.
Qed.

(** Membership in a list extended at its end: the old members, or the new
    one. *)
Ltac in_snoc H :=
  apply in_app_or in H; destruct H as [H|[<-|[]]].

Ltac still_latest Hin Hid :=
  split; [apply in_or_app; left; exact Hin|]; split; [exact Hid|].

Ltac newly_latest :=
  split; [apply in_or_app; right; left; reflexivity|]; split; [reflexivity|].

(** What [resolve] holds for a task id: the latest observation, or
    nothing when the task was never observed. *)
Lemma resolve_lookup (obs : list LocationObservation) (i : string) :
  match resolve obs !! i with
  | Some r => isLatest obs i r
  | None => forall o, In o obs -> taskId o <> i
  end.
Proof.
  induction obs as [|o obs IH] using rev_ind.
  - unfold resolve. simpl. rewrite lookup_empty. intros o [].
  - rewrite resolve_snoc.
    destruct (String.eqb_spec (taskId o) i) as [<-|Hne].
    + rewrite resolveStep_lookup_same.
      destruct (resolve obs !! taskId o) as [r|].
      * destruct IH as (Hin & Hid & Hmax). unfold prefer.
        destruct (compareObservations o r) eqn:Hcmp.
        -- still_latest Hin Hid. intros o' Hin' Hid'. in_snoc Hin';
             [apply Hmax; assumption|congruence].
        -- still_latest Hin Hid. intros o' Hin' Hid'. in_snoc Hin';
             [apply Hmax; assumption|congruence].
        -- newly_latest. intros o' Hin' Hid'. in_snoc Hin'.
           ++ intros Hgt. apply (Hmax o' Hin' Hid').
              eapply compareObservations_Gt_trans; eassumption.
           ++ rewrite compareObservations_refl. discriminate.
      * newly_latest. intros o' Hin' Hid'. in_snoc Hin'.
        -- exfalso. exact (IH o' Hin' Hid').
        -- rewrite compareObservations_refl. discriminate.
    + rewrite resolveStep_lookup_other by exact Hne.
      destruct (resolve obs !! i) as [r|].
      * destruct IH as (Hin & Hid & Hmax). still_latest Hin Hid.
        intros o' Hin' Hid'. in_snoc Hin'; [apply Hmax; assumption|contradiction].
      * intros o' Hin'. in_snoc Hin'; [apply IH; assumption|exact Hne].
Qed.

Lemma resolve_Some (obs : list LocationObservation) (i : string)
    (r : LocationObservation) :
  resolve obs !! i = Some r -> isLatest obs i r.
Proof.
  intros E. pose proof (resolve_lookup obs i) as H. rewrite E in H. exact H.
Qed.


(** Leaving out observations of other tasks does not change what is
    resolved for a task. *)
Lemma resolve_filter (p : LocationObservation -> bool) (obs : list LocationObservation)
    (i : string) :
  (forall o, taskId o = i -> p o = true) ->
  resolve (List.filter p obs) !! i = resolve obs !! i.
Proof.
  intros Hkeep. induction obs as [|o obs IH] using rev_ind; [reflexivity|].
  rewrite List.filter_app, resolve_snoc. simpl.
  destruct (String.eqb_spec (taskId o) i) as [E|Hne].
  - rewrite (Hkeep o E), resolve_snoc. subst i.
    rewrite !resolveStep_lookup_same, IH. reflexivity.
  - rewrite resolveStep_lookup_other by exact Hne.
    destruct (p o); [|rewrite app_nil_r; exact IH].
    rewrite resolve_snoc, resolveStep_lookup_other by exact Hne. exact IH.
Qed.

Lemma getLatestTaskStatesForIds_lookup (obs : list LocationObservation)
    (taskIds : list string) (i : string) :
  In i taskIds ->
  getLatestTaskStatesForIds obs taskIds !! i = resolve obs !! i.
Proof.
  intros Hi. unfold getLatestTaskStatesForIds. apply resolve_filter.
  intros o <-. apply includes_In, Hi.
Qed.


(** Two observations of one task, in the order of arrival. *)
Lemma resolve_pair (a b : LocationObservation) :
  taskId a = taskId b -> resolve [a; b] !! taskId a = Some (prefer a b).
Proof.
  intros E. change [a; b] with ([a] ++ [b]). rewrite resolve_snoc, E.
  rewrite resolveStep_lookup_same. rewrite <- E.
  change [a] with ([] ++ [a]). rewrite resolve_snoc, resolveStep_lookup_same.
  reflexivity.
Qed.




End LocationLaws.

(** C8. For every task id that was observed, the resolved location is one
    of its observations, carries the maximum timestamp, and among the
    observations that share this maximum timestamp none has a kind that
    ranks higher (active over draft over archived); a task that was never
    observed has no resolved location.  In particular one active and one
    archived observation with equal timestamps, in either order, resolve
    to the active one. *)
Theorem resolve_tie_break :
  (forall (obs : list LatestLocationResolver.LocationObservation) (i : string),
     match LatestLocationResolver.resolve obs !! i with
     | Some r =>
         In r obs /\ LatestLocationResolver.taskId r = i /\
         forall o, In o obs -> LatestLocationResolver.taskId o = i ->
           (LatestLocationResolver.timestamp o <= LatestLocationResolver.timestamp r)%Z /\
           (LatestLocationResolver.timestamp o = LatestLocationResolver.timestamp r ->
            (LatestLocationResolver.kindRank (LatestLocationResolver.locationKind o) <=
             LatestLocationResolver.kindRank (LatestLocationResolver.locationKind r))%Z)
     | None => forall o, In o obs -> LatestLocationResolver.taskId o <> i
     end) /\
  (forall (i : string) (b1 b2 : LatestLocationResolver.BranchRef) (t : Z),
     let activeCopy :=
       LatestLocationResolver.mkObservation i b1 LatestLocationResolver.active t in
     let archivedCopy :=
       LatestLocationResolver.mkObservation i b2 LatestLocationResolver.archived t in
     LatestLocationResolver.resolve [activeCopy; archivedCopy] !! i = Some activeCopy /\
     LatestLocationResolver.resolve [archivedCopy; activeCopy] !! i = Some activeCopy).
Proof.
  split.
  - intros obs i. pose proof (resolve_lookup obs i) as H.
    destruct (LatestLocationResolver.resolve obs !! i) as [r|]; [|exact H].
    destruct H as (Hin & Hid & Hmax). split; [exact Hin|]. split; [exact Hid|].
    intros o Ho Hoi.
    destruct (compareObservations_timestamp o r (Hmax o Ho Hoi)) as [Hle Hkind].
    split; [exact Hle|]. intros E. apply Hkind, E.
  - intros i b1 b2 t activeCopy archivedCopy.
    assert (Hlow : LatestLocationResolver.compareObservations archivedCopy activeCopy = Lt).
    { unfold LatestLocationResolver.compareObservations. simpl.
      rewrite Z.compare_refl. reflexivity. }
    assert (Hhigh : LatestLocationResolver.compareObservations activeCopy archivedCopy = Gt).
    { rewrite compareObservations_antisym, Hlow. reflexivity. }
    split.
    + pose proof (resolve_pair activeCopy archivedCopy eq_refl) as H.
      unfold LatestLocationResolver.prefer in H. rewrite Hlow in H. exact H.
    + pose proof (resolve_pair archivedCopy activeCopy eq_refl) as H.
      unfold LatestLocationResolver.prefer in H. rewrite Hhigh in H. exact H.
Qed.




(** ** The board pipeline *)

Lemma filterTasksByLatestState_In (tasks : list TaskWithMetadata)
    (latest : gmap string LatestLocationResolver.LocationObservation)
    (t : TaskWithMetadata) :
  In t (filterTasksByLatestState tasks latest) <->
  In t tasks /\
  exists loc, latest !! id (task t) = Some loc /\
              LatestLocationResolver.locationKind loc = LatestLocationResolver.active.
Proof.
  unfold filterTasksByLatestState. rewrite filter_In. split.
  - intros [Hin Hlive]. split; [exact Hin|].
    destruct (latest !! id (task t)) as [loc|]; [|discriminate].
    exists loc. split; [reflexivity|].
    unfold LatestLocationResolver.isLive in Hlive.
    destruct (LatestLocationResolver.locationKind loc); [reflexivity|discriminate..].
  - intros [Hin (loc & -> & Hk)]. split; [exact Hin|].
    unfold LatestLocationResolver.isLive. rewrite Hk. reflexivity.
Qed.

(** The tasks shown by the board, given the merged tasks. *)
Lemma board_filter_In (obs : list LatestLocationResolver.LocationObservation)
    (tasks : list TaskWithMetadata) (t : TaskWithMetadata) :
  In t (filterTasksByLatestState tasks
          (getLatestTaskStatesForIds obs (map (fun t => id (task t)) tasks))) <->
  In t tasks /\
  exists loc, LatestLocationResolver.resolve obs !! id (task t) = Some loc /\
              LatestLocationResolver.locationKind loc = LatestLocationResolver.active.
Proof.
  rewrite filterTasksByLatestState_In. split; intros [Hin (loc & Hloc & Hk)];
    (split; [exact Hin|]); exists loc; (split; [|exact Hk]).
  - rewrite <- Hloc. symmetry. apply getLatestTaskStatesForIds_lookup.
    apply (in_map (fun t => id (task t))), Hin.
  - rewrite <- Hloc. apply getLatestTaskStatesForIds_lookup.
    apply (in_map (fun t => id (task t))), Hin.
Qed.

Lemma handleBoardView_tasks (resolver : Resolver) (config : option BacklogConfig)
    (localTasks remoteTasks : list TaskWithMetadata)
    (obs : list LatestLocationResolver.LocationObservation) (options : BoardOptions) :
  match mergeRemoteTasks resolver (configStatuses config) (configStrategy config)
          (localTasksById localTasks) remoteTasks with
  | JS.Ok tasksById =>
      exists out,
        handleBoardView resolver config localTasks remoteTasks obs options = JS.Ok out /\
        boardTasks out =
        filterTasksByLatestState (mapValues tasksById)
          (getLatestTaskStatesForIds obs (map (fun t => id (task t)) (mapValues tasksById)))
  | JS.Throw e =>
      handleBoardView resolver config localTasks remoteTasks obs options = JS.Throw e
  end.
Proof.
  unfold handleBoardView, loadBoardTasks.
  destruct (mergeRemoteTasks _ _ _ _ _) as [tasksById|e]; simpl; [|reflexivity].
  destruct (filterTasksByLatestState _ _) eqn:E; eexists; split; reflexivity.
Qed.

(** C1. A task is on the board exactly when it is one of the merged tasks
    and the latest location resolved for its id, over all observations of
    all branches, is active; a task whose latest location is draft or
    archived, or that has none, is filtered out.  The same holds for the
    whole pipeline: the tasks handed to the renderer are those merged
    tasks whose latest location is active. *)
Theorem board_shows_active_tasks :
  (forall (obs : list LatestLocationResolver.LocationObservation)
          (tasks : list TaskWithMetadata) (t : TaskWithMetadata),
     In t (filterTasksByLatestState tasks
             (getLatestTaskStatesForIds obs (map (fun t => id (task t)) tasks))) <->
     In t tasks /\
     exists loc, LatestLocationResolver.resolve obs !! id (task t) = Some loc /\
                 isLatest obs (id (task t)) loc /\
                 LatestLocationResolver.locationKind loc = LatestLocationResolver.active) /\
  (forall (resolver : Resolver) (config : option BacklogConfig)
          (localTasks remoteTasks : list TaskWithMetadata)
          (obs : list LatestLocationResolver.LocationObservation) (options : BoardOptions),
     match handleBoardView resolver config localTasks remoteTasks obs options with
     | JS.Ok out =>
         exists tasksById,
           mergeRemoteTasks resolver (configStatuses config) (configStrategy config)
             (localTasksById localTasks) remoteTasks = JS.Ok tasksById /\
           forall t, In t (boardTasks out) <->
             In t (mapValues tasksById) /\
             exists loc, LatestLocationResolver.resolve obs !! id (task t) = Some loc /\
                         LatestLocationResolver.locationKind loc =
                         LatestLocationResolver.active
     | JS.Throw e =>
         mergeRemoteTasks resolver (configStatuses config) (configStrategy config)
           (localTasksById localTasks) remoteTasks = JS.Throw e
     end).
Proof.
  split.
  - intros obs tasks t. rewrite board_filter_In. split.
    + intros [Hin (loc & Hloc & Hk)]. split; [exact Hin|]. exists loc.
      split; [exact Hloc|]. split; [apply resolve_Some, Hloc|exact Hk].
    + intros [Hin (loc & Hloc & _ & Hk)]. split; [exact Hin|]. exists loc. auto.
  - intros resolver config localTasks remoteTasks obs options.
    pose proof (handleBoardView_tasks resolver config localTasks remoteTasks obs options) as H.
    destruct (mergeRemoteTasks _ _ _ _ _) as [tasksById|e].
    + destruct H as (out & -> & Hout). exists tasksById. split; [reflexivity|].
      intros t. rewrite Hout. apply board_filter_In.
    + rewrite H. reflexivity.
Qed.

Lemma mapValues_mapSet {V : Type} (k : string) (v v' : V) (m : JsMap V) :
  In v' (mapValues (mapSet k v m)) -> v' = v \/ In v' (mapValues m).
Proof.
  unfold mapValues. induction m as [|[k0 v0] m IH]; simpl.
  - intros [<-|[]]. left. reflexivity.
  - destruct (String.eqb k0 k); simpl.
    + intros [<-|H]; [left; reflexivity|right; right; exact H].
    + intros [<-|H]; [right; left; reflexivity|].
      destruct (IH H) as [->|H']; [left; reflexivity|right; right; exact H'].
Qed.

Lemma mapGet_In_values {V : Type} (k : string) (v : V) (m : JsMap V) :
  mapGet k m = Some v -> In v (mapValues m).
Proof.
  unfold mapValues. induction m as [|[k0 v0] m IH]; simpl; [discriminate|].
  destruct (String.eqb k0 k); [intros [= ->]; left; reflexivity|].
  intros H. right. apply IH, H.
Qed.

Lemma mapGet_None_mapHas {V : Type} (k : string) (m : JsMap V) :
  mapHas k m = false <-> mapGet k m = None.
Proof. unfold mapHas. destruct (mapGet k m); split; congruence. Qed.

Lemma localTasksById_snoc (l : list TaskWithMetadata) (t : TaskWithMetadata) :
  localTasksById (l ++ [t]) = mapSet (id (task t)) (asLocal t) (localTasksById l).
Proof. unfold localTasksById. rewrite fold_left_app. reflexivity. Qed.

Lemma localTasksById_keys (l : list TaskWithMetadata) :
  mapKeys (localTasksById l) = firstSeen (map (fun t => id (task t)) l).
Proof.
  induction l as [|t l IH] using rev_ind; [reflexivity|].
  rewrite localTasksById_snoc, mapKeys_mapSet, map_app. cbn [map].
  rewrite firstSeen_snoc, mapHas_includes, IH, includes_firstSeen. reflexivity.
Qed.

Lemma localTasksById_values (l : list TaskWithMetadata) (t : TaskWithMetadata) :
  In t (mapValues (localTasksById l)) -> exists x, In x l /\ t = asLocal x.
Proof.
  induction l as [|x l IH] using rev_ind; [intros []|].
  rewrite localTasksById_snoc. intros H. apply mapValues_mapSet in H.
  destruct H as [->|H].
  - exists x. split; [apply in_or_app; right; left; reflexivity|reflexivity].
  - destruct (IH H) as (y & Hy & ->). exists y. split; [apply in_or_app; left; exact Hy|reflexivity].
Qed.

Section MergeLoop.

Variable resolver : Resolver.
Variable statusList : list string.
Variable strategy : string.

(** Every record of the merged map was in the map before or is one of the
    remote records, provided the resolver returns one of its inputs. *)
Lemma mergeRemoteTasks_values :
  (forall a b res, resolver a b statusList strategy = JS.Ok res -> res = a \/ res = b) ->
  forall (remoteTasks : list TaskWithMetadata) (m merged : JsMap TaskWithMetadata),
    mergeRemoteTasks resolver statusList strategy m remoteTasks = JS.Ok merged ->
    forall t, In t (mapValues merged) -> In t (mapValues m) \/ In t remoteTasks.
Proof.
  intros Hsel. induction remoteTasks as [|r rest IH]; intros m merged Hm t Ht.
  - simpl in Hm. injection Hm as <-. left. exact Ht.
  - simpl in Hm. unfold mergeRemoteTask in Hm.
    destruct (mapGet (id (task r)) m) as [existing|] eqn:Hget.
    + destruct (resolver existing r statusList strategy) as [res|e] eqn:Hres;
        simpl in Hm; [|discriminate].
      destruct (IH _ _ Hm t Ht) as [H|H]; [|right; right; exact H].
      apply mapValues_mapSet in H. destruct H as [->|H]; [|left; exact H].
      destruct (Hsel _ _ _ Hres) as [->| ->].
      * left. eapply mapGet_In_values, Hget.
      * right. left. reflexivity.
    + simpl in Hm. destruct (IH _ _ Hm t Ht) as [H|H]; [|right; right; exact H].
      apply mapValues_mapSet in H. destruct H as [->|H]; [right; left; reflexivity|left; exact H].
Qed.

Lemma mapHas_mapSet_seen {V : Type} (m : JsMap V) (seen : list string) (k : string) (v : V) :
  (forall k', mapHas k' m = includes seen k') ->
  forall k', mapHas k' (mapSet k v m) = includes (k :: seen) k'.
Proof.
  intros Hinv k'. rewrite mapHas_includes, mapKeys_mapSet.
  unfold includes at 2. simpl. fold (includes seen k').
  destruct (mapHas k m) eqn:Hk.
  - rewrite <- mapHas_includes, Hinv.
    destruct (String.eqb_spec k' k) as [->|Hne]; simpl; [|reflexivity].
    rewrite <- Hinv. exact Hk.
  - rewrite includes_app, <- mapHas_includes, Hinv. unfold includes at 2. simpl.
    rewrite orb_false_r. apply orb_comm.
Qed.

(** Without an id collision the resolver is never called and the merge
    completes, whatever the strategy. *)
Lemma mergeRemoteTasks_no_collision :
  forall (remoteTasks : list TaskWithMetadata) (m : JsMap TaskWithMetadata)
         (seen : list string),
    (forall k, mapHas k m = includes seen k) ->
    remoteCollision seen remoteTasks = false ->
    exists merged, mergeRemoteTasks resolver statusList strategy m remoteTasks = JS.Ok merged.
Proof.
  induction remoteTasks as [|r rest IH]; intros m seen Hinv Hcol.
  - eexists. reflexivity.
  - simpl in Hcol. apply orb_false_iff in Hcol. destruct Hcol as [Hr Hrest].
    simpl. unfold mergeRemoteTask.
    rewrite <- Hinv in Hr. apply mapGet_None_mapHas in Hr. rewrite Hr. simpl.
    eapply IH; [|exact Hrest]. apply mapHas_mapSet_seen, Hinv.
Qed.

(** With an id collision, a resolver that rejects the strategy makes the
    merge fail with the resolver's error. *)
Lemma mergeRemoteTasks_collision (e : string) :
  (forall a b, resolver a b statusList strategy = JS.Throw e) ->
  forall (remoteTasks : list TaskWithMetadata) (m : JsMap TaskWithMetadata)
         (seen : list string),
    (forall k, mapHas k m = includes seen k) ->
    remoteCollision seen remoteTasks = true ->
    mergeRemoteTasks resolver statusList strategy m remoteTasks = JS.Throw e.
Proof.
  intros Hrej. induction remoteTasks as [|r rest IH]; intros m seen Hinv Hcol.
  - discriminate.
  - simpl in Hcol. simpl. unfold mergeRemoteTask.
    destruct (mapGet (id (task r)) m) as [existing|] eqn:Hget.
    + rewrite Hrej. reflexivity.
    + apply mapGet_None_mapHas in Hget. rewrite Hinv in Hget. rewrite Hget in Hcol.
      simpl in Hcol. simpl. eapply IH; [|exact Hcol]. apply mapHas_mapSet_seen, Hinv.
Qed.

End MergeLoop.

Lemma localTasksById_seen (localTasks : list TaskWithMetadata) (k : string) :
  mapHas k (localTasksById localTasks) = includes (map (fun t => id (task t)) localTasks) k.
Proof. rewrite mapHas_includes, localTasksById_keys. apply includes_firstSeen. Qed.

Lemma resolveTaskConflict_selects (l r : TaskWithMetadata) (statusList : list string)
    (strategy : string) :
  match resolveTaskConflict l r statusList strategy with
  | JS.Ok res => ConflictResolver.parseStrategy strategy <> None /\ (res = l \/ res = r)
  | JS.Throw _ => ConflictResolver.parseStrategy strategy = None
  end.
Proof.
  unfold resolveTaskConflict, ConflictResolver.resolve.
  destruct (ConflictResolver.parseStrategy strategy) as [st|]; [|reflexivity].
  destruct (decide (l = r)); [split; [discriminate|left; reflexivity]|].
  split; [discriminate|].
  unfold ConflictResolver.choose.
  destruct st; repeat match goal with |- context [if ?c then _ else _] => destruct c end; auto.
Qed.

(** C7. The record chosen between two conflicting records is, by value,
    one of the two: under most_progressed and most_recent a record is
    always produced and it equals the local or the remote input, and no
    record is produced under any other strategy name.  A single side is
    returned unchanged; in the merge loop a remote task whose id is new is
    stored as it is, and every record left after the merge is a local
    record (tagged with its source) or one of the remote records. *)
Theorem conflict_resolution_selects_an_input :
  (forall (l r : TaskWithMetadata) (statusList : list string) (strategy : string),
     match resolveTaskConflict l r statusList strategy with
     | JS.Ok res => res = l \/ res = r
     | JS.Throw _ => ConflictResolver.parseStrategy strategy = None
     end) /\
  (forall (l r : TaskWithMetadata) (statusList : list string),
     (exists res, resolveTaskConflict l r statusList "most_progressed" = JS.Ok res /\
                  (res = l \/ res = r)) /\
     (exists res, resolveTaskConflict l r statusList "most_recent" = JS.Ok res /\
                  (res = l \/ res = r))) /\
  (forall (t : TaskWithMetadata) (statusList : list string) (strategy : string),
     ConflictResolver.parseStrategy strategy <> None ->
     ConflictResolver.resolve (ConflictResolver.OnlyLocal t) statusList strategy = JS.Ok t /\
     ConflictResolver.resolve (ConflictResolver.OnlyRemote t) statusList strategy = JS.Ok t) /\
  (forall (resolver : Resolver) (statusList : list string) (strategy : string)
          (tasksById : JsMap TaskWithMetadata) (remoteTask : TaskWithMetadata),
     mapGet (id (task remoteTask)) tasksById = None ->
     mergeRemoteTask resolver statusList strategy tasksById remoteTask =
     JS.Ok (mapSet (id (task remoteTask)) remoteTask tasksById)) /\
  (forall (statusList : list string) (strategy : string)
          (localTasks remoteTasks : list TaskWithMetadata)
          (merged : JsMap TaskWithMetadata),
     mergeRemoteTasks resolveTaskConflict statusList strategy
       (localTasksById localTasks) remoteTasks = JS.Ok merged ->
     forall t, In t (mapValues merged) ->
       (exists x, In x localTasks /\ t = asLocal x) \/ In t remoteTasks).
Proof.
  assert (Hsel : forall l r statusList strategy,
            match resolveTaskConflict l r statusList strategy with
            | JS.Ok res => res = l \/ res = r
            | JS.Throw _ => ConflictResolver.parseStrategy strategy = None
            end).
  { intros l r statusList strategy.
    pose proof (resolveTaskConflict_selects l r statusList strategy) as H.
    destruct (resolveTaskConflict l r statusList strategy); tauto. }
  split; [exact Hsel|].
  split.
  { intros l r statusList. split.
    - pose proof (Hsel l r statusList "most_progressed") as H.
      destruct (resolveTaskConflict l r statusList "most_progressed") as [res|e];
        [exists res; auto|discriminate].
    - pose proof (Hsel l r statusList "most_recent") as H.
      destruct (resolveTaskConflict l r statusList "most_recent") as [res|e];
        [exists res; auto|discriminate]. }
  split.
  { intros t statusList strategy Hs. unfold ConflictResolver.resolve.
    destruct (ConflictResolver.parseStrategy strategy); [split; reflexivity|congruence]. }
  split.
  { intros resolver statusList strategy tasksById remoteTask Hget.
    unfold mergeRemoteTask. rewrite Hget. reflexivity. }
  intros statusList strategy localTasks remoteTasks merged Hm t Ht.
  destruct (mergeRemoteTasks_values resolveTaskConflict statusList strategy) with
    (remoteTasks := remoteTasks) (m := localTasksById localTasks) (merged := merged) (t := t)
    as [H|H]; try assumption.
  - intros a b res Hres. pose proof (Hsel a b statusList strategy) as H.
    rewrite Hres in H. exact H.
  - left. apply localTasksById_values, H.
  - right. exact H.
Qed.

Lemma conflict_resolution_selects_an_input_witness :
  ConflictResolver.resolve
    (ConflictResolver.OnlyRemote (sampleRecord "task-1" "Done" None))
    ["To Do"; "Done"] "most_recent" =
  JS.Ok (sampleRecord "task-1" "Done" None).
Proof.
  apply (proj1 (proj2 (proj2 conflict_resolution_selects_an_input))
           (sampleRecord "task-1" "Done" None) ["To Do"; "Done"] "most_recent").
  vm_compute. discriminate.
Defined.

(** C6, as the code has it.  A configuration that is missing, or whose
    strategy is missing or empty, runs the board exactly as one that names
    most_progressed.  Any other identifier reaches the conflict resolver
    unchanged, and nothing else examines it: when no remote task carries
    the id of a local or of an earlier remote task the pipeline completes
    whatever the identifier is, and when one does, an identifier the
    resolver rejects ends the pipeline with the resolver's error. *)
Theorem strategy_default_and_validation :
  (forall (resolver : Resolver) (statusesOpt : option (list string)) (width : option Z)
          (localTasks remoteTasks : list TaskWithMetadata)
          (obs : list LatestLocationResolver.LocationObservation) (options : BoardOptions),
     let named := mkConfig statusesOpt (Some "most_progressed") width in
     handleBoardView resolver (Some (mkConfig statusesOpt None width))
       localTasks remoteTasks obs options =
     handleBoardView resolver (Some named) localTasks remoteTasks obs options /\
     handleBoardView resolver (Some (mkConfig statusesOpt (Some "") width))
       localTasks remoteTasks obs options =
     handleBoardView resolver (Some named) localTasks remoteTasks obs options /\
     handleBoardView resolver None localTasks remoteTasks obs options =
     handleBoardView resolver (Some (mkConfig None (Some "most_progressed") None))
       localTasks remoteTasks obs options) /\
  (forall (statusesOpt : option (list string)) (width : option Z) (strategy : string),
     JS.truthy strategy = true ->
     configStrategy (Some (mkConfig statusesOpt (Some strategy) width)) = strategy) /\
  (forall (resolver : Resolver) (config : option BacklogConfig)
          (localTasks remoteTasks : list TaskWithMetadata)
          (obs : list LatestLocationResolver.LocationObservation) (options : BoardOptions),
     idCollision localTasks remoteTasks = false ->
     exists out,
       handleBoardView resolver config localTasks remoteTasks obs options = JS.Ok out) /\
  (forall (resolver : Resolver) (config : option BacklogConfig)
          (localTasks remoteTasks : list TaskWithMetadata)
          (obs : list LatestLocationResolver.LocationObservation) (options : BoardOptions)
          (e : string),
     (forall a b, resolver a b (configStatuses config) (configStrategy config) = JS.Throw e) ->
     idCollision localTasks remoteTasks = true ->
     handleBoardView resolver config localTasks remoteTasks obs options = JS.Throw e).
Proof.
  split; [intros; repeat split; reflexivity|].
  split.
  { intros statusesOpt width strategy Hs. unfold configStrategy, stringOr. simpl.
    rewrite Hs. reflexivity. }
  split.
  - intros resolver config localTasks remoteTasks obs options Hcol.
    pose proof (handleBoardView_tasks resolver config localTasks remoteTasks obs options) as H.
    destruct (mergeRemoteTasks_no_collision resolver (configStatuses config)
                (configStrategy config) remoteTasks (localTasksById localTasks)
                (map (fun t => id (task t)) localTasks)) as [merged Hm].
    + intros k. apply localTasksById_seen.
    + exact Hcol.
    + rewrite Hm in H. destruct H as (out & Hout & _). exists out. exact Hout.
  - intros resolver config localTasks remoteTasks obs options e Hrej Hcol.
    pose proof (handleBoardView_tasks resolver config localTasks remoteTasks obs options) as H.
    rewrite (mergeRemoteTasks_collision resolver (configStatuses config)
               (configStrategy config) e Hrej remoteTasks (localTasksById localTasks)
               (map (fun t => id (task t)) localTasks)) in H.
    + exact H.
    + intros k. apply localTasksById_seen.
    + exact Hcol.
Qed.

Lemma strategy_default_and_validation_witness :
  handleBoardView rejectingResolver (strategyConfig (Some "newest"))
    [sampleRecord "task-1" "To Do" None] [sampleRecord "task-1" "Done" None]
    liveObservations defaultBoardOptions =
  JS.Throw "newest".
Proof.
  apply (proj2 (proj2 (proj2 strategy_default_and_validation))).
  - intros a b. reflexivity.
  - reflexivity.
Defined.

(** C6, counterexample.  The resolver used here rejects every call and
    reports the strategy name it was handed.  With the strategy newest the
    board is rendered all the same, because no remote task shares an id
    with a local one and the resolver is never called; with the empty
    strategy and two records of task-1, the name that reaches the resolver
    is most_progressed: the default has silently taken its place.  The
    conflict resolver of the specification, which knows neither name,
    resolves that conflict between To Do and Done as most_progressed
    does. *)
Lemma unknown_strategy_not_rejected :
  handleBoardView rejectingResolver (strategyConfig (Some "newest"))
    [sampleRecord "task-1" "To Do" None] [sampleRecord "task-2" "Done" None]
    liveObservations defaultBoardOptions =
  JS.Ok (RenderBoard
           [asLocal (sampleRecord "task-1" "To Do" None); sampleRecord "task-2" "Done" None]
           ["To Do"; "In Progress"; "Done"] "horizontal" 20) /\
  handleBoardView rejectingResolver (strategyConfig (Some ""))
    [sampleRecord "task-1" "To Do" None] [sampleRecord "task-1" "Done" None]
    liveObservations defaultBoardOptions =
  JS.Throw "most_progressed" /\
  ConflictResolver.parseStrategy "newest" = None /\
  ConflictResolver.parseStrategy "" = None /\
  handleBoardView resolveTaskConflict (strategyConfig (Some ""))
    [sampleRecord "task-1" "To Do" None] [sampleRecord "task-1" "Done" None]
    liveObservations defaultBoardOptions =
  JS.Ok (RenderBoard [sampleRecord "task-1" "Done" None]
           ["To Do"; "In Progress"; "Done"] "horizontal" 20).
Proof. repeat split; vm_compute; reflexivity. Qed.

(** The two conflict examples of the specification: with the status order
    To Do, In Progress, Done, most_progressed prefers the remote record in
    Done to the local one in To Do; most_recent prefers the record updated
    on 2025-02-01 to the one updated on 2025-01-01. *)
Example resolveTaskConflict_examples :
  resolveTaskConflict (sampleRecord "task-1" "To Do" None) (sampleRecord "task-1" "Done" None)
    ["To Do"; "In Progress"; "Done"] "most_progressed" =
  JS.Ok (sampleRecord "task-1" "Done" None) /\
  resolveTaskConflict (sampleRecord "task-1" "Done" (Some "2025-01-01"))
    (sampleRecord "task-1" "To Do" (Some "2025-02-01"))
    ["To Do"; "In Progress"; "Done"] "most_recent" =
  JS.Ok (sampleRecord "task-1" "To Do" (Some "2025-02-01")).
Proof. split; vm_compute; reflexivity. Qed.

(** ** Strings and numbers *)

Lemma startsWith_app (p s : string) : JS.startsWith (p +:+ s) p = true.
Proof.
  unfold JS.startsWith. induction p as [|a p IH]; simpl.
  - destruct s; reflexivity.
  - destruct (ascii_dec a a) as [_|Hne]; [exact IH|congruence].
Qed.

Lemma slice_app (p s : string) : JS.slice (String.length p) (p +:+ s) = s.
Proof. induction p as [|a p IH]; simpl; [destruct s; reflexivity|exact IH]. Qed.

Lemma string_app_cons (x : ascii) (a b : string) :
  String x a +:+ b = String x (a +:+ b).
Proof. reflexivity. Qed.

Lemma string_app_assoc (a b c : string) : (a +:+ b) +:+ c = a +:+ (b +:+ c).
Proof.
  induction a as [|x a IH]; [reflexivity|].
  rewrite !string_app_cons, IH. reflexivity.
Qed.


Lemma allChars_app (p : ascii -> bool) (a b : string) :
  allChars p (a +:+ b) = allChars p a && allChars p b.
Proof.
  unfold allChars. induction a as [|x a IH]; [reflexivity|].
  rewrite string_app_cons. simpl. rewrite IH. apply andb_assoc.
Qed.

(** A greedy run stops at the first character outside the class. *)
Lemma takeWhile_app_stop (p : ascii -> bool) (run rest : string) :
  allChars p run = true ->
  JS.takeWhile p rest = EmptyString ->
  JS.takeWhile p (run +:+ rest) = run.
Proof.
  unfold allChars. induction run as [|a run IH]; simpl; intros Hall Hstop; [exact Hstop|].
  apply andb_true_iff in Hall. destruct Hall as [Ha Hall].
  rewrite Ha, IH by assumption. reflexivity.
Qed.

Lemma takeWhile_all (p : ascii -> bool) (run : string) :
  allChars p run = true -> JS.takeWhile p run = run.
Proof.
  unfold allChars. induction run as [|a run IH]; simpl; intros Hall; [reflexivity|].
  apply andb_true_iff in Hall. destruct Hall as [Ha Hall].
  rewrite Ha, IH by assumption. reflexivity.
Qed.

Lemma takeWhile_allChars (p : ascii -> bool) (s : string) :
  allChars p (JS.takeWhile p s) = true.
Proof.
  unfold allChars. induction s as [|a s IH]; simpl; [reflexivity|].
  destruct (p a) eqn:Ha; simpl; [rewrite Ha; exact IH|reflexivity].
Qed.

(** A string without the separator is a single piece. *)
Lemma split_no_separator (c : ascii) (s : string) :
  allChars (fun a => negb (Ascii.eqb a c)) s = true -> JS.split c s = [s].
Proof.
  unfold allChars. induction s as [|a s IH]; simpl; intros Hall; [reflexivity|].
  apply andb_true_iff in Hall. destruct Hall as [Ha Hall].
  apply negb_true_iff in Ha. rewrite Ha, IH by assumption. reflexivity.
Qed.



Lemma isDigit_not_space (a : ascii) : JS.isDigit a = true -> JS.isWhiteSpace a = false.
Proof.
  unfold JS.isDigit, JS.isWhiteSpace. intros Ha.
  apply andb_true_iff in Ha. destruct Ha as [H1 H2].
  apply Nat.leb_le in H1, H2.
  destruct (Nat.leb_spec 9 (nat_of_ascii a)), (Nat.leb_spec (nat_of_ascii a) 13),
           (Nat.eqb_spec (nat_of_ascii a) 32), (Nat.eqb_spec (nat_of_ascii a) 160);
    simpl; try reflexivity; lia.
Qed.

Section DecimalDigits.

Import Decimal.

Lemma string_of_uint_digits (d : uint) :
  allChars JS.isDigit (NilEmpty.string_of_uint d) = true.
Proof. unfold allChars. induction d; simpl; try exact IHd; reflexivity. Qed.

Lemma digitsValue_of_uint_acc (d : uint) (acc : positive) :
  JS.digitsValue (Z.pos acc) (NilEmpty.string_of_uint d) = Z.pos (Pos.of_uint_acc d acc).
Proof.
  revert acc. induction d; intros acc; simpl; [reflexivity|..];
    rewrite <- IHd; f_equal;
    match goal with
    | |- context [JS.digitValue ?c] =>
        let v := eval vm_compute in (JS.digitValue c) in
        change (JS.digitValue c) with v
    end; lia.
Qed.

Lemma digitsValue_of_uint (d : uint) :
  JS.digitsValue 0 (NilEmpty.string_of_uint d) = Z.of_N (Pos.of_uint d).
Proof.
  induction d; simpl; [reflexivity|exact IHd|..];
    match goal with
    | |- context [JS.digitValue ?c] =>
        let v := eval vm_compute in (JS.digitValue c) in
        change (JS.digitValue c) with v
    end; apply digitsValue_of_uint_acc.
Qed.

Lemma to_int_nonneg (n : Z) :
  (0 <= n)%Z -> exists d, Z.to_int n = Pos d /\ d <> Nil /\ Z.of_N (Pos.of_uint d) = n.
Proof.
  intros Hn. destruct n as [|p|p]; [| |lia].
  - exists (D0 Nil). repeat split; discriminate.
  - exists (Pos.to_uint p). split; [reflexivity|].
    split; [apply DecimalPos.Unsigned.to_uint_nonnil|].
    rewrite DecimalPos.Unsigned.of_to. reflexivity.
Qed.

End DecimalDigits.

(** The decimal text of a natural number is a non-empty run of digits. *)
Lemma decimalText_digits (n : Z) :
  (0 <= n)%Z ->
  allChars JS.isDigit (JS.decimalText n) = true /\
  JS.decimalText n <> EmptyString.
Proof.
  intros Hn. destruct (to_int_nonneg n Hn) as (d & Hd & Hnil & _).
  unfold JS.decimalText. rewrite Hd. simpl. split; [apply string_of_uint_digits|].
  destruct d; simpl; congruence.
Qed.

Lemma parseInt_digits (ds : string) :
  allChars JS.isDigit ds = true -> ds <> EmptyString ->
  JS.parseInt ds = Some (JS.toNumber (JS.digitsValue 0 ds)).
Proof.
  intros Hall Hne. unfold JS.parseInt.
  destruct ds as [|a ds]; [congruence|].
  assert (Ha : JS.isDigit a = true).
  { unfold allChars in Hall. simpl in Hall. apply andb_true_iff in Hall. tauto. }
  simpl JS.trimStart. rewrite (isDigit_not_space a Ha).
  replace (let '(sign, body) :=
             match String a ds with
             | String "-"%char r => ((-1)%Z, r)
             | String "+"%char r => (1%Z, r)
             | _ => (1%Z, String a ds)
             end in
           match JS.takeWhile JS.isDigit body with
           | EmptyString => None
           | String a0 s => Some (JS.toNumber (sign * JS.digitsValue 0 (String a0 s)))
           end)
    with (match JS.takeWhile JS.isDigit (String a ds) with
          | EmptyString => None
          | String a0 s => Some (JS.toNumber (1 * JS.digitsValue 0 (String a0 s)))
          end).
  - rewrite (takeWhile_all _ _ Hall). rewrite Z.mul_1_l. reflexivity.
  - destruct a as [[] [] [] [] [] [] [] []]; try reflexivity; discriminate Ha.
Qed.

(** Reading back the decimal text of an integer up to 2^53 gives the
    integer. *)
Lemma parseInt_decimalText (n : Z) :
  (0 <= n <= JS.MAX_SAFE_INTEGER + 1)%Z -> JS.parseInt (JS.decimalText n) = Some n.
Proof.
  intros Hn. destruct (decimalText_digits n (proj1 Hn)) as [Hall Hne].
  rewrite (parseInt_digits _ Hall Hne). f_equal.
  destruct (to_int_nonneg n (proj1 Hn)) as (d & Hd & _ & Hval).
  unfold JS.decimalText. rewrite Hd. simpl. rewrite digitsValue_of_uint, Hval.
  apply toNumber_exact, Hn.
Qed.

Lemma digitsValue_nonneg (s : string) (acc : Z) :
  allChars JS.isDigit s = true -> (0 <= acc)%Z -> (0 <= JS.digitsValue acc s)%Z.
Proof.
  unfold allChars. revert acc. induction s as [|a s IH]; intros acc Hall Hacc; [exact Hacc|].
  simpl in Hall. apply andb_true_iff in Hall. destruct Hall as [Ha Hall].
  simpl. apply IH; [exact Hall|].
  unfold JS.isDigit in Ha. apply andb_true_iff in Ha. destruct Ha as [Ha _].
  apply Nat.leb_le in Ha. unfold JS.digitValue. lia.
Qed.

Lemma orElse_nonempty (s d : string) : s <> EmptyString -> JS.orElse s d = s.
Proof. destruct s; [congruence|reflexivity]. Qed.

(** A top-level number within the safe integers is the exact value of
    the digits that follow [task-]: a bound on the numbers read is a
    bound on the ids themselves. *)
Lemma topLevelNumber_exact (taskId : string) (k : Z) :
  topLevelNumber taskId = Some k -> (k <= JS.MAX_SAFE_INTEGER)%Z ->
  exists ds, matchTopLevel taskId = Some ds /\ k = JS.digitsValue 0 ds.
Proof.
  unfold topLevelNumber, matchTopLevel. intros Hk Hsafe.
  destruct (JS.startsWith taskId "task-"); [|discriminate].
  pose proof (takeWhile_allChars JS.isDigit (JS.slice 5 taskId)) as Hall.
  destruct (JS.takeWhile JS.isDigit (JS.slice 5 taskId)) as [|a ds] eqn:E; [discriminate|].
  rewrite orElse_nonempty, parseInt_digits in Hk by (assumption || discriminate).
  injection Hk as <-. eexists. split; [reflexivity|].
  apply toNumber_safe; [|exact Hsafe]. apply digitsValue_nonneg; [exact Hall|lia].
Qed.

(** ** Freshness of allocated ids *)

(** A file named after an allocated number carries that number. *)
Lemma fileNumber_written (stem rest : string) (k : Z) :
  (0 <= k <= JS.MAX_SAFE_INTEGER + 1)%Z -> JS.takeWhile JS.isDigit rest = EmptyString ->
  fileNumber stem (stem +:+ JS.decimalText k +:+ rest) = Some k.
Proof.
  intros Hk Hrest. destruct (decimalText_digits k (proj1 Hk)) as [Hall Hne].
  unfold fileNumber, matchNumbered.
  rewrite startsWith_app, slice_app, (takeWhile_app_stop _ _ _ Hall Hrest).
  destruct (JS.decimalText k) as [|a ds] eqn:E; [congruence|].
  rewrite <- E, orElse_nonempty by (rewrite E; discriminate).
  apply parseInt_decimalText, Hk.
Qed.





(** The maximum over a list extended by one id that carries a larger
    number is that number. *)
Lemma maxStep_loop_extended (num : string -> option Z) (ids ids' : list string)
    (newId : string) (n : Z) :
  (forall i, In i ids' <-> In i ids \/ i = newId) ->
  num newId = Some n ->
  (fold_left (maxStep num) ids 0 < n)%Z ->
  fold_left (maxStep num) ids' 0%Z = n.
Proof.
  intros Hmem Hnew Hlt.
  pose proof (maxStep_loop_isMaxOf num ids) as (Hm0 & Hub & _).
  apply (isMaxOf_unique num ids'); [apply maxStep_loop_isMaxOf|].
  split; [lia|]. split.
  - intros i k Hi Hk. apply Hmem in Hi. destruct Hi as [Hi| ->].
    + specialize (Hub i k Hi Hk). lia.
    + rewrite Hnew in Hk. injection Hk as <-. lia.
  - right. exists newId. split; [apply Hmem; right; reflexivity|exact Hnew].
Qed.

(** While every number read is below [MAX_SAFE_INTEGER], so is the
    maximum, and [max + 1] is still a safe integer. *)
Lemma maxStep_loop_safe (num : string -> option Z) (ids : list string) :
  (forall i k, In i ids -> num i = Some k -> (k < JS.MAX_SAFE_INTEGER)%Z) ->
  (0 <= fold_left (maxStep num) ids 0 < JS.MAX_SAFE_INTEGER)%Z.
Proof.
  intros Hsafe. split; [apply maxStep_loop_ge|].
  destruct (maxStep_loop_attained num ids 0) as [->|(i & Hin & Hi)];
    [vm_compute; reflexivity|].
  eapply Hsafe; eassumption.
Qed.







Lemma numberedStep_maxStep (stem : string) (max : Z) (file : string) :
  numberedStep stem max file = maxStep (fileNumber stem) max file.
Proof.
  unfold numberedStep, maxStep, fileNumber.
  destruct (matchNumbered stem file) as [m|]; [|reflexivity].
  destruct (JS.parseInt (JS.orElse m "0")) as [n|]; simpl; [|reflexivity].
  destruct (Z.ltb_spec max n); lia.
Qed.

(** The allocation shared by decisions and documents. *)
Lemma numbered_allocation (stem : string) (files : list string) :
  (forall f k, In f files -> fileNumber stem f = Some k -> (k < JS.MAX_SAFE_INTEGER)%Z) ->
  let newId :=
    stem +:+ JS.numberToString (JS.add (fold_left (numberedStep stem) files 0%Z) 1) in
  exists n : Z,
    newId = stem +:+ JS.decimalText n /\ (1 <= n)%Z /\
    (forall f k, In f files -> fileNumber stem f = Some k -> (k < n)%Z) /\
    (forall rest, JS.takeWhile JS.isDigit rest = EmptyString ->
       JS.numberToString
         (JS.add (fold_left (numberedStep stem) (files ++ [newId +:+ rest]) 0%Z) 1) =
       JS.decimalText (n + 1)).
Proof.
  intros Hsafe newId. subst newId.
  rewrite (fold_left_ext_step _ _ _ _ (numberedStep_maxStep stem)).
  pose proof (maxStep_loop_isMaxOf (fileNumber stem) files) as (Hm0 & Hub & _).
  pose proof (maxStep_loop_safe (fileNumber stem) files Hsafe) as Hm.
  set (m := fold_left (maxStep (fileNumber stem)) files 0%Z) in *.
  rewrite successor_text by lia.
  exists (m + 1)%Z. split; [reflexivity|]. split; [lia|]. split.
  - intros f k Hf Hk. specialize (Hub f k Hf Hk). lia.
  - intros rest Hrest.
    rewrite (fold_left_ext_step _ _ _ _ (numberedStep_maxStep stem)).
    rewrite (maxStep_loop_extended (fileNumber stem) files _
               ((stem +:+ JS.decimalText (m + 1)) +:+ rest) (m + 1)).
    + apply successor_text. lia.
    + intros i. rewrite in_app_iff. simpl. intuition congruence.
    + rewrite string_app_assoc. apply fileNumber_written; [lia|exact Hrest].
    + fold m. lia.
Qed.

(** X3. While every existing decision file carries a number below
    [Number.MAX_SAFE_INTEGER], the id allocated for a decision is
    [decision-<n>] with [n] at least 1 and greater than the number of
    every existing decision file; once a file named after it exists, the
    next id is [decision-<n+1>].  The same holds for documents with
    [doc-]. *)
Theorem decision_and_doc_ids_fresh :
  (forall files : list string,
     (forall f k, In f files -> fileNumber "decision-" f = Some k ->
                  (k < JS.MAX_SAFE_INTEGER)%Z) ->
     exists n : Z,
       generateNextDecisionId files = "decision-" +:+ JS.decimalText n /\
       (1 <= n)%Z /\
       (forall f k, In f files -> fileNumber "decision-" f = Some k -> (k < n)%Z) /\
       (forall rest, JS.takeWhile JS.isDigit rest = EmptyString ->
          generateNextDecisionId (files ++ [generateNextDecisionId files +:+ rest]) =
          "decision-" +:+ JS.decimalText (n + 1))) /\
  (forall files : list string,
     (forall f k, In f files -> fileNumber "doc-" f = Some k ->
                  (k < JS.MAX_SAFE_INTEGER)%Z) ->
     exists n : Z,
       generateNextDocId files = "doc-" +:+ JS.decimalText n /\
       (1 <= n)%Z /\
       (forall f k, In f files -> fileNumber "doc-" f = Some k -> (k < n)%Z) /\
       (forall rest, JS.takeWhile JS.isDigit rest = EmptyString ->
          generateNextDocId (files ++ [generateNextDocId files +:+ rest]) =
          "doc-" +:+ JS.decimalText (n + 1))).
Proof.
  split; intros files Hsafe.
  - destruct (numbered_allocation "decision-" files Hsafe) as (n & Hn & H1 & Hlt & Hnext).
    exists n. unfold generateNextDecisionId.
    split; [exact Hn|]. split; [exact H1|]. split; [exact Hlt|].
    intros rest Hrest. rewrite (Hnext rest Hrest). reflexivity.
  - destruct (numbered_allocation "doc-" files Hsafe) as (n & Hn & H1 & Hlt & Hnext).
    exists n. unfold generateNextDocId.
    split; [exact Hn|]. split; [exact H1|]. split; [exact Hlt|].
    intros rest Hrest. rewrite (Hnext rest Hrest). reflexivity.
Qed.

Lemma decision_and_doc_ids_fresh_witness :
  exists n : Z,
    generateNextDecisionId ["decision-1 - Use Rocq.md"; "decision-2 - Use stdpp.md"] =
    "decision-" +:+ JS.decimalText n /\ (1 <= n)%Z.
Proof.
  destruct (proj1 decision_and_doc_ids_fresh
              ["decision-1 - Use Rocq.md"; "decision-2 - Use stdpp.md"])
    as (n & Hn & H1 & _).
  - intros f k [<-|[<-|[]]] Hk; vm_compute in Hk; injection Hk as <-;
      vm_compute; reflexivity.
  - exists n. split; assumption.
Defined.

(** ** The scan of the branches *)

Lemma promiseAll_Ok {A B : Type} (f : A -> JS.Result B) (l : list A) (bs : list B) :
  JS.promiseAll f l = JS.Ok bs <-> Forall2 (fun a b => f a = JS.Ok b) l bs.
Proof.
  revert bs. induction l as [|a l IH]; intros bs; simpl.
  - split; [intros [= <-]; constructor|intros H; inversion H; reflexivity].
  - destruct (f a) as [b|e] eqn:Hfa; simpl.
    + destruct (JS.promiseAll f l) as [bs'|e] eqn:Hrest; simpl.
      * split.
        -- intros [= <-]. constructor; [exact Hfa|]. apply IH. reflexivity.
        -- intros H. inversion H as [|a0 b0 l0 bs0 Hb Hall]; subst.
           rewrite Hfa in Hb. injection Hb as <-.
           apply IH in Hall. injection Hall as <-. reflexivity.
      * split; [discriminate|].
        intros H. inversion H as [|a0 b0 l0 bs0 Hb Hall]; subst.
        apply IH in Hall. discriminate.
    + split; [discriminate|].
      intros H. inversion H as [|a0 b0 l0 bs0 Hb Hall]; subst. congruence.
Qed.

Lemma promiseAll_Throw {A B : Type} (f : A -> JS.Result B) (l : list A) (a : A) (e : string) :
  In a l -> f a = JS.Throw e -> exists e', JS.promiseAll f l = JS.Throw e'.
Proof.
  induction l as [|x l IH]; intros Hin Hfa; [destruct Hin|].
  simpl. destruct Hin as [->|Hin].
  - rewrite Hfa. exists e. reflexivity.
  - destruct (f x) as [b|e0]; simpl; [|exists e0; reflexivity].
    destruct (IH Hin Hfa) as [e' ->]. exists e'. reflexivity.
Qed.

(** X4. When the listing of the files of a single branch fails, the ids
    of every other branch are discarded with it: the id allocated is the
    one computed from the local data alone, and the failure reaches the
    console only when DEBUG is set. *)
Theorem one_failing_branch_discards_all :
  forall (debug : option string) (core : Core) (parent : option string)
         (branch e : string),
    (exists branches, listAllBranches (gitOps core) = JS.Ok branches /\ In branch branches) ->
    listFilesInTree (gitOps core) branch "backlog/tasks" = JS.Throw e ->
    scannedIds core = [] /\
    exists e', generateNextId debug core parent =
               (fst (generateNextId debug (localOnly core) parent),
                if JS.truthyOpt debug
                then [Error ("Could not fetch remote task IDs: " +:+ e')]
                else []).
Proof.
  intros debug core parent branch e (branches & Hb & Hin) Hfail.
  assert (Hremote : exists e', remoteTaskIds (gitOps core) = JS.Throw e').
  { unfold remoteTaskIds. destruct (fetch (gitOps core)) as [[]|e0]; simpl;
      [|exists e0; reflexivity].
    rewrite Hb. simpl.
    destruct (promiseAll_Throw
                (fun b : string =>
                   files ← listFilesInTree (gitOps core) b "backlog/tasks";
                   JS.Ok (omap (M := list) branchFileId files))
                branches branch e Hin) as [e' He'].
    - rewrite Hfail. reflexivity.
    - rewrite He'. exists e'. reflexivity. }
  destruct Hremote as [e' He'].
  split; [unfold scannedIds; rewrite He'; reflexivity|].
  exists e'. unfold generateNextId. rewrite He'. simpl.
  destruct (JS.truthyOpt parent); reflexivity.
Qed.

(** A repository whose second branch cannot be listed. *)
Lemma one_failing_branch_discards_all_witness :
  let git :=
    {| fetch := JS.Ok tt;
       listAllBranches := JS.Ok ["main"; "broken"];
       listFilesInTree := fun b _ =>
         if String.eqb b "broken" then JS.Throw "bad object"
         else JS.Ok ["backlog/tasks/task-9 - Remote.md"] |} in
  scannedIds {| filesystem := filesystem sampleCore; gitOps := git |} = [].
Proof.
  intros git.
  apply (one_failing_branch_discards_all None
           {| filesystem := filesystem sampleCore; gitOps := git |} None
           "broken" "bad object").
  - exists ["main"; "broken"]. split; [reflexivity|]. right. left. reflexivity.
  - reflexivity.
Defined.

Lemma matchTaskFile_unfold (file : string) :
  matchTaskFile file =
  match runAtStart file with
  | String _ _ => Some (runAtStart file)
  | EmptyString =>
      match file with
      | EmptyString => None
      | String _ rest => matchTaskFile rest
      end
  end.
Proof. destruct file; reflexivity. Qed.

Lemma runAtStart_allChars (file : string) :
  allChars JS.isDigitOrDot (runAtStart file) = true.
Proof.
  unfold runAtStart. destruct (JS.startsWith file "task-"); [|reflexivity].
  apply takeWhile_allChars.
Qed.

Lemma matchTaskFile_form (file m : string) :
  matchTaskFile file = Some m ->
  m <> EmptyString /\ allChars JS.isDigitOrDot m = true.
Proof.
  induction file as [|a file IH]; intros H; rewrite matchTaskFile_unfold in H.
  - destruct (runAtStart "") eqn:Hrun; discriminate.
  - destruct (runAtStart (String a file)) eqn:Hrun; [apply IH, H|].
    injection H as <-. split; [discriminate|].
    rewrite <- Hrun. apply runAtStart_allChars.
Qed.

(** X5. When the scan succeeds, the ids it collects are exactly the ids
    read from the files listed under [backlog/tasks] of some branch; each
    is [task-] followed by a non-empty run of digits and dots, and a file
    whose path holds no such run contributes nothing. *)
Theorem scanned_ids_come_from_branch_files :
  forall (g : GitOps) (ids : list string),
    remoteTaskIds g = JS.Ok ids ->
    (forall i, In i ids <->
       exists branches branch files f,
         listAllBranches g = JS.Ok branches /\ In branch branches /\
         listFilesInTree g branch "backlog/tasks" = JS.Ok files /\
         In f files /\ branchFileId f = Some i) /\
    (forall i, In i ids ->
       exists m, i = "task-" +:+ m /\ m <> EmptyString /\
                 allChars JS.isDigitOrDot m = true).
Proof.
  intros g ids Hscan.
  assert (Hchar : forall i, In i ids <->
            exists branches branch files f,
              listAllBranches g = JS.Ok branches /\ In branch branches /\
              listFilesInTree g branch "backlog/tasks" = JS.Ok files /\
              In f files /\ branchFileId f = Some i).
  { unfold remoteTaskIds in Hscan.
    destruct (fetch g) as [[]|e0]; simpl in Hscan; [|discriminate].
    destruct (listAllBranches g) as [branches|e1]; simpl in Hscan; [|discriminate].
    destruct (JS.promiseAll _ branches) as [results|e2] eqn:Hall; simpl in Hscan;
      [|discriminate].
    injection Hscan as <-. apply promiseAll_Ok in Hall.
    intros i. rewrite in_concat. split.
    - intros (r & Hr & Hi).
      apply list_elem_of_In in Hr. apply list_elem_of_lookup in Hr. destruct Hr as [k Hk].
      destruct (Forall2_lookup_r _ _ _ _ _ Hall Hk) as (branch & Hbk & Hf).
      destruct (listFilesInTree g branch "backlog/tasks") as [files|e] eqn:Hfiles;
        simpl in Hf; [|discriminate].
      injection Hf as <-. apply omap_branchFileId_In in Hi. destruct Hi as (f & Hf & Hi).
      exists branches, branch, files, f. repeat split; try assumption.
      apply list_elem_of_In, list_elem_of_lookup. exists k. exact Hbk.
    - intros (branches' & branch & files & f & [= <-] & Hb & Hfiles & Hf & Hi).
      apply list_elem_of_In, list_elem_of_lookup in Hb. destruct Hb as [k Hk].
      destruct (Forall2_lookup_l _ _ _ _ _ Hall Hk) as (r & Hrk & Hr).
      rewrite Hfiles in Hr. simpl in Hr. injection Hr as <-.
      exists (omap (M := list) branchFileId files). split.
      + apply list_elem_of_In, list_elem_of_lookup. exists k. exact Hrk.
      + apply omap_branchFileId_In. exists f. auto. }
  split; [exact Hchar|].
  intros i Hi. apply Hchar in Hi. destruct Hi as (_ & _ & _ & f & _ & _ & _ & _ & Hid).
  unfold branchFileId in Hid. destruct (matchTaskFile f) as [m|] eqn:Hm; [|discriminate].
  injection Hid as <-. exists m. split; [reflexivity|]. apply (matchTaskFile_form f), Hm.
Qed.

Lemma scanned_ids_come_from_branch_files_witness :
  exists m, "task-2.1" = "task-" +:+ m /\ allChars JS.isDigitOrDot m = true.
Proof.
  destruct (proj2 (scanned_ids_come_from_branch_files oneBranch ["task-2.1"] eq_refl)
              "task-2.1" (or_introl eq_refl)) as (m & Hm & _ & Hall).
  exists m. split; assumption.
Defined.

(** ** Normal form of dependencies *)

Lemma split_pieces_no_separator (c : ascii) (s piece : string) :
  In piece (JS.split c s) -> allChars (fun a => negb (Ascii.eqb a c)) piece = true.
Proof.
  revert piece. induction s as [|a s IH]; intros piece; simpl.
  - intros [<-|[]]. reflexivity.
  - destruct (Ascii.eqb a c) eqn:Hac.
    + intros [<-|Hin]; [reflexivity|apply IH, Hin].
    + destruct (JS.split c s) as [|h t] eqn:Hsplit.
      * intros [<-|[]]. unfold allChars. simpl. rewrite Hac. reflexivity.
      * intros [<-|Hin].
        -- unfold allChars. simpl. rewrite Hac. simpl.
           apply (IH h). left. reflexivity.
        -- apply IH. right. exact Hin.
Qed.

Lemma trimStart_allChars (p : ascii -> bool) (s : string) :
  allChars p s = true -> allChars p (JS.trimStart s) = true.
Proof.
  unfold allChars. induction s as [|a s IH]; simpl; [reflexivity|].
  intros Hall. destruct (JS.isWhiteSpace a); [|exact Hall].
  apply andb_true_iff in Hall. apply IH. tauto.
Qed.

Lemma trimEnd_allChars (p : ascii -> bool) (s : string) :
  allChars p s = true -> allChars p (JS.trimEnd s) = true.
Proof.
  unfold allChars. induction s as [|a s IH]; simpl; [reflexivity|].
  intros Hall. apply andb_true_iff in Hall. destruct Hall as [Ha Hall].
  specialize (IH Hall). destruct (JS.trimEnd s) as [|b r].
  - destruct (JS.isWhiteSpace a); simpl; [reflexivity|rewrite Ha; reflexivity].
  - simpl in *. rewrite Ha. exact IH.
Qed.

Lemma trimEnd_idempotent (s : string) : JS.trimEnd (JS.trimEnd s) = JS.trimEnd s.
Proof.
  induction s as [|a s IH]; simpl; [reflexivity|].
  destruct (JS.trimEnd s) as [|b r] eqn:E.
  - destruct (JS.isWhiteSpace a) eqn:Ha; simpl; [reflexivity|rewrite Ha; reflexivity].
  - simpl. simpl in IH. rewrite IH. reflexivity.
Qed.

(** [trimEnd] keeps a first character that is no white space. *)
Lemma trimEnd_keeps_head (a : ascii) (s : string) :
  JS.isWhiteSpace a = false -> exists r, JS.trimEnd (String a s) = String a r.
Proof.
  intros Ha. simpl. destruct (JS.trimEnd s) as [|b r].
  - rewrite Ha. exists EmptyString. reflexivity.
  - exists (String b r). reflexivity.
Qed.

Lemma trimStart_head (s : string) :
  JS.trimStart s = EmptyString \/
  exists a r, JS.trimStart s = String a r /\ JS.isWhiteSpace a = false.
Proof.
  induction s as [|a s IH]; simpl; [left; reflexivity|].
  destruct (JS.isWhiteSpace a) eqn:Ha; [exact IH|].
  right. exists a, s. auto.
Qed.

(** A trimmed string has nothing left to trim. *)
Lemma trim_fixed (s : string) :
  JS.trimStart (JS.trim s) = JS.trim s /\ JS.trimEnd (JS.trim s) = JS.trim s.
Proof.
  unfold JS.trim. split; [|apply trimEnd_idempotent].
  destruct (trimStart_head s) as [->|(a & r & -> & Ha)]; [reflexivity|].
  destruct (trimEnd_keeps_head a r Ha) as [r' ->]. simpl. rewrite Ha. reflexivity.
Qed.

Lemma string_app_nonempty (p x : string) : x <> EmptyString -> p +:+ x <> EmptyString.
Proof. intros Hne. destruct p; [exact Hne|rewrite string_app_cons; discriminate]. Qed.

Lemma trimEnd_app_fixed (p x : string) :
  JS.trimEnd x = x -> x <> EmptyString -> JS.trimEnd (p +:+ x) = p +:+ x.
Proof.
  intros Hx Hne. induction p as [|a p IH]; [exact Hx|].
  rewrite string_app_cons. simpl. rewrite IH.
  pose proof (string_app_nonempty p x Hne) as Hpx.
  destruct (p +:+ x); [congruence|reflexivity].
Qed.

(** A normalized dependency is left as it is by every step of the
    normalization. *)
Lemma withTaskPrefix_normal (x : string) :
  JS.trimStart x = x -> JS.trimEnd x = x -> x <> EmptyString ->
  allChars (fun a => negb (Ascii.eqb a ",")) x = true ->
  let d := withTaskPrefix x in
  JS.split "," d = [d] /\ JS.trim d = d /\ JS.truthy d = true /\ withTaskPrefix d = d.
Proof.
  intros Hs He Hne Hcomma d. subst d. unfold withTaskPrefix.
  destruct (JS.startsWith x "task-") eqn:Hpre.
  - rewrite Hpre. split; [apply split_no_separator, Hcomma|].
    split; [unfold JS.trim; rewrite Hs; exact He|].
    split; [apply truthy_true_iff, Hne|reflexivity].
  - assert (Hpre' : JS.startsWith ("task-" +:+ x) "task-" = true) by apply startsWith_app.
    rewrite Hpre'. split.
    + apply split_no_separator. rewrite allChars_app, Hcomma. reflexivity.
    + split; [|split; reflexivity].
      unfold JS.trim. change (JS.trimStart ("task-" +:+ x)) with ("task-" +:+ x).
      apply trimEnd_app_fixed; assumption.
Qed.

(** X6. Normalizing dependencies that are already normalized changes
    nothing: the result of [normalizeDependencies], handed back to it as
    the array of an option, is returned as it is. *)
Theorem normalizeDependencies_idempotent :
  forall v : OptionValue,
    normalizeDependencies (Multiple (normalizeDependencies v)) = normalizeDependencies v.
Proof.
  intros v.
  assert (Hnormal : forall d, In d (normalizeDependencies v) ->
            JS.split "," d = [d] /\ JS.trim d = d /\ JS.truthy d = true /\
            withTaskPrefix d = d).
  { intros d Hd. rewrite normalizeDependencies_pieces in Hd.
    apply in_map_iff in Hd. destruct Hd as (x & <- & Hx).
    apply filter_In in Hx. destruct Hx as [Hx Ht].
    apply in_map_iff in Hx. destruct Hx as (piece & <- & Hpiece).
    destruct (trim_fixed piece) as [Hs He].
    apply withTaskPrefix_normal; try assumption.
    - apply truthy_true_iff, Ht.
    - unfold JS.trim. apply trimEnd_allChars, trimStart_allChars.
      destruct v as [|s|l]; simpl in Hpiece; [destruct Hpiece| |].
      + eapply split_pieces_no_separator, Hpiece.
      + apply in_flat_map in Hpiece. destruct Hpiece as (s & _ & Hs').
        eapply split_pieces_no_separator, Hs'. }
  rewrite (normalizeDependencies_pieces (Multiple _)). simpl rawPieces.
  induction (normalizeDependencies v) as [|d ds IH]; [reflexivity|].
  destruct (Hnormal d (or_introl eq_refl)) as (Hsplit & Htrim & Htruthy & Hprefix).
  simpl. rewrite Hsplit. simpl. rewrite Htrim, Htruthy. simpl. rewrite Hprefix. f_equal.
  apply IH. intros d' Hd'. apply Hnormal. right. exact Hd'.
Qed.

(** ** Validation of dependencies *)

Lemma filter_sublist {A : Type} (p : A -> bool) (l : list A) :
  sublist (List.filter p l) l.
Proof.
  induction l as [|a l IH]; simpl; [constructor|].
  destruct (p a); [apply sublist_skip|apply sublist_cons]; exact IH.
Qed.

(** X7. [validateDependencies] splits the dependencies in two without
    losing, adding or reordering any: [valid] holds those that are ids of
    local tasks or drafts, [invalid] the others, each in the order given,
    and together they are the dependencies handed in. *)
Theorem validateDependencies_partitions :
  forall (deps : list string) (core : Core),
    let valid := fst (validateDependencies deps core) in
    let invalid := snd (validateDependencies deps core) in
    Permutation (valid ++ invalid) deps /\
    sublist valid deps /\ sublist invalid deps /\
    (forall d, In d valid <-> In d deps /\ In d (localIds core)) /\
    (forall d, In d invalid <-> In d deps /\ ~ In d (localIds core)).
Proof.
  intros deps core valid invalid. subst valid invalid.
  rewrite validateDependencies_valid, validateDependencies_invalid.
  split; [apply filter_split_Permutation|].
  split; [apply filter_sublist|]. split; [apply filter_sublist|].
  split; intros d; rewrite filter_In.
  - rewrite bool_decide_eq_true, list_elem_of_In. reflexivity.
  - rewrite negb_true_iff, bool_decide_eq_false, list_elem_of_In. reflexivity.
Qed.

(** ** Tasks created by [task create] and [draft create] *)

(** The fields of a created task that the later steps of the action leave
    as [buildTaskFromOptions] set them. *)
Lemma taskCreate_created (debug : option string) (today : string) (ser : Serializer)
    (filepath : bool -> Task -> string) (core : Core) (taskTitle : string)
    (options : CreateOptions) (isDraft : bool) (t : Task) :
  created (taskCreate debug today ser filepath core taskTitle options) = Some (isDraft, t) ->
  let built := buildTaskFromOptions today
                 (fst (generateNextId debug core (opt_parent options))) taskTitle options in
  isDraft = opt_draft options /\
  id t = id built /\ title t = title built /\ status t = status built /\
  assignee t = assignee built /\ createdDate t = createdDate built /\
  labels t = labels built /\ parentTaskId t = parentTaskId built /\
  priority t = priority built.
Proof.
  cbv zeta. unfold taskCreate.
  destruct (generateNextId debug core (opt_parent options)) as [taskId out]. cbn [fst].
  set (built := buildTaskFromOptions today taskId taskTitle options).
  intros H.
  destruct (dependencies built) as [|d ds].
  - simpl in H.
    destruct (optionTruthy _), (JS.truthyOpt (opt_plan options));
      injection H as <- <-; repeat split; reflexivity.
  - destruct (validateDependencies (d :: ds) core) as [valid [|bad invalid]];
      simpl in H; [|discriminate].
    destruct (optionTruthy _), (JS.truthyOpt (opt_plan options));
      injection H as <- <-; repeat split; reflexivity.
Qed.

(** X8. A task created with [--parent] is a subtask of that parent: its
    [parentTaskId] is the parent id with the [task-] prefix, and its own id
    starts with that parent id followed by a dot; while the subtasks seen
    carry ordinals below [Number.MAX_SAFE_INTEGER], what follows the dot
    is the decimal text of a number of at least 1.  Naming the parent
    with or without the prefix ([-p 2] or [-p task-2]) gives the same
    outcome. *)
Theorem created_subtask_extends_parent :
  forall (debug : option string) (today : string) (ser : Serializer)
         (filepath : bool -> Task -> string) (core : Core) (taskTitle : string)
         (options : CreateOptions) (parent : string),
    JS.truthy parent = true ->
    (forall (isDraft : bool) (t : Task),
       created (taskCreate debug today ser filepath core taskTitle
                  (withParent options (Some parent))) = Some (isDraft, t) ->
       parentTaskId t = Some (subtaskPrefix parent) /\
       JS.startsWith (subtaskPrefix parent) "task-" = true /\
       JS.startsWith (id t) (subtaskPrefix parent +:+ ".") = true /\
       ((forall i k, In i (map id (listTasks (filesystem core)) ++ scannedIds core) ->
                     subtaskOrdinal (subtaskPrefix parent) i = Some k ->
                     (k < JS.MAX_SAFE_INTEGER)%Z) ->
        exists n : Z, (1 <= n)%Z /\
          id t = subtaskPrefix parent +:+ "." +:+ JS.decimalText n)) /\
    (JS.startsWith parent "task-" = false ->
     taskCreate debug today ser filepath core taskTitle (withParent options (Some parent)) =
     taskCreate debug today ser filepath core taskTitle
       (withParent options (Some ("task-" +:+ parent)))).
Proof.
  intros debug today ser filepath core taskTitle options parent Hp. split.
  - intros isDraft t Hc. apply taskCreate_created in Hc. cbv zeta in Hc.
    destruct Hc as (_ & Hid & _ & _ & _ & _ & _ & Hparent & _).
    assert (Hfold : id t =
              subtaskPrefix parent +:+ "." +:+
              JS.numberToString
                (JS.add (fold_left (maxStep (subtaskOrdinal (subtaskPrefix parent)))
                           (map id (listTasks (filesystem core)) ++ scannedIds core) 0%Z) 1)).
    { rewrite Hid. simpl. apply nextId_subtask_fold, Hp. }
    split; [rewrite Hparent; simpl; rewrite Hp; reflexivity|].
    split; [apply withTaskPrefix_startsWith|].
    split; [rewrite Hfold, <- string_app_assoc; apply startsWith_app|].
    intros Hsafe.
    pose proof (maxStep_loop_safe _ _ Hsafe) as Hm.
    exists (fold_left (maxStep (subtaskOrdinal (subtaskPrefix parent)))
              (map id (listTasks (filesystem core)) ++ scannedIds core) 0 + 1)%Z.
    split; [lia|]. rewrite Hfold, successor_text by lia. reflexivity.
  - intros Hpre.
    assert (Hgen : generateNextId debug core (Some ("task-" +:+ parent)) =
                   generateNextId debug core (Some parent)).
    { unfold generateNextId. simpl JS.truthyOpt. rewrite Hp. simpl default.
      rewrite Hpre, startsWith_app. reflexivity. }
    unfold taskCreate. cbn [opt_parent withParent]. rewrite Hgen.
    unfold buildTaskFromOptions. cbn [opt_parent withParent opt_draft opt_dependsOn
      opt_dep opt_priority opt_status opt_assignee opt_labels opt_description
      opt_ac opt_acceptanceCriteria opt_plan].
    simpl JS.truthyOpt. rewrite Hp. simpl default.
    unfold withTaskPrefix. rewrite Hpre, startsWith_app. reflexivity.
Qed.

Lemma created_subtask_extends_parent_witness :
  taskCreate None "2025-06-30" identitySerializer samplePath sampleCore "Subtask"
    (withParent noCreateOptions (Some "2")) =
  taskCreate None "2025-06-30" identitySerializer samplePath sampleCore "Subtask"
    (withParent noCreateOptions (Some "task-2")).
Proof.
  apply (created_subtask_extends_parent None "2025-06-30" identitySerializer samplePath
           sampleCore "Subtask" noCreateOptions "2"); reflexivity.
Defined.



(** ** Editing a task *)

Lemma addLabelStep_spec (labelList : list string) (l : string) :
  addLabelStep labelList l =
  if JS.truthy (JS.trim l) && negb (includes labelList (JS.trim l))
  then labelList ++ [JS.trim l] else labelList.
Proof. reflexivity. Qed.

Lemma addLabels_prefix (adds labelList : list string) :
  labelList `prefix_of` fold_left addLabelStep adds labelList.
Proof.
  revert labelList. induction adds as [|l adds IH]; intros labelList; simpl; [reflexivity|].
  etransitivity; [|apply IH]. rewrite addLabelStep_spec.
  destruct (_ && _); [apply prefix_app_r|]; reflexivity.
Qed.

Lemma addLabels_NoDup (adds labelList : list string) :
  List.NoDup labelList -> List.NoDup (fold_left addLabelStep adds labelList).
Proof.
  revert labelList. induction adds as [|l adds IH]; intros labelList Hnd; simpl; [exact Hnd|].
  apply IH. rewrite addLabelStep_spec.
  destruct (JS.truthy (JS.trim l)); simpl; [|exact Hnd].
  destruct (includes labelList (JS.trim l)) eqn:Hinc; simpl; [exact Hnd|].
  apply includes_false in Hinc. apply NoDup_ListNoDup, NoDup_app.
  split; [apply NoDup_ListNoDup, Hnd|].
  split; [|apply NoDup_singleton].
  intros x Hx Hx'. apply list_elem_of_singleton in Hx'. subst x.
  apply Hinc, list_elem_of_In, Hx.
Qed.

Lemma addLabels_In (adds labelList : list string) (x : string) :
  In x (fold_left addLabelStep adds labelList) <->
  In x labelList \/ exists l, In l adds /\ x = JS.trim l /\ x <> EmptyString.
Proof.
  revert labelList. induction adds as [|l adds IH]; intros labelList; simpl.
  - split; [auto|intros [H|(l & [] & _)]; exact H].
  - rewrite IH, addLabelStep_spec. split.
    + intros [H|(l' & Hl' & Hx)]; [|right; exists l'; tauto].
      destruct (JS.truthy (JS.trim l)) eqn:Ht; simpl in H; [|left; exact H].
      destruct (includes labelList (JS.trim l)); simpl in H; [left; exact H|].
      apply in_app_or in H. destruct H as [H|[<-|[]]]; [left; exact H|].
      right. exists l. split; [left; reflexivity|]. split; [reflexivity|].
      apply truthy_true_iff, Ht.
    + intros [H|(l' & [->|Hl'] & -> & Hne)].
      * left. destruct (_ && _); [apply in_or_app; left|]; exact H.
      * left. apply truthy_true_iff in Hne. rewrite Hne. simpl.
        destruct (includes labelList (JS.trim l')) eqn:Hinc; simpl.
        -- apply includes_In, Hinc.
        -- apply in_or_app. right. left. reflexivity.
      * right. exists l'. auto.
Qed.

Lemma removeFirst_absent (x : string) (labelList : list string) :
  ~ In x labelList -> removeFirst x labelList = labelList.
Proof.
  induction labelList as [|y rest IH]; simpl; intros Hnot; [reflexivity|].
  destruct (String.eqb_spec y x) as [->|Hne]; [tauto|].
  rewrite IH by tauto. reflexivity.
Qed.

Lemma removeFirst_snoc (x : string) (labelList : list string) :
  ~ In x labelList -> removeFirst x (labelList ++ [x]) = labelList.
Proof.
  induction labelList as [|y rest IH]; simpl; intros Hnot.
  - rewrite String.eqb_refl. reflexivity.
  - destruct (String.eqb_spec y x) as [->|Hne]; [tauto|].
    rewrite IH by tauto. reflexivity.
Qed.

(** X10. The [--add-label] loop of [task edit] keeps the labels the task
    has, in place, and appends each new label trimmed, once, and never an
    empty one: a list without repetition stays so.  Adding a label the
    task does not have and removing it again, in one command or two, gives
    back the labels as they were; removing a label the task does not have
    changes nothing. *)
Theorem edit_labels_add_and_remove :
  (forall (labelList adds : list string),
     let result := fold_left addLabelStep adds labelList in
     labelList `prefix_of` result /\
     (List.NoDup labelList -> List.NoDup result) /\
     (forall x, In x result <->
        In x labelList \/ exists l, In l adds /\ x = JS.trim l /\ x <> EmptyString)) /\
  (forall (labelList : list string) (l : string),
     ~ In (JS.trim l) labelList ->
     removeLabelStep (addLabelStep labelList l) l = labelList /\
     removeLabelStep labelList l = labelList /\
     forall options : EditOptions,
       JS.truthyOpt (edit_label options) = false ->
       edit_addLabel options = Single l -> edit_removeLabel options = Single l ->
       editLabels labelList options = labelList).
Proof.
  split.
  - intros labelList adds result. subst result.
    split; [apply addLabels_prefix|]. split; [apply addLabels_NoDup|apply addLabels_In].
  - intros labelList l Hnot.
    assert (Hround : removeLabelStep (addLabelStep labelList l) l = labelList).
    { unfold removeLabelStep. rewrite addLabelStep_spec.
      destruct (JS.truthy (JS.trim l)); simpl; [|apply removeFirst_absent, Hnot].
      apply includes_false in Hnot. rewrite Hnot. simpl.
      apply removeFirst_snoc, includes_false, Hnot. }
    split; [exact Hround|]. split; [apply removeFirst_absent, Hnot|].
    intros options Hlabel Hadd Hremove. unfold editLabels.
    rewrite Hlabel, Hadd, Hremove. simpl optionTruthy.
    destruct (JS.truthy l) eqn:Hl; simpl; [exact Hround|reflexivity].
Qed.

(** The last steps of [task edit], once the priority and the
    dependencies are accepted. *)
Ltac edit_written t :=
  destruct (optionTruthy (optionOr _ _)), (JS.truthyOpt (edit_plan _));
  (split; [reflexivity|]); exists t; eexists; (split; [reflexivity|]);
  (split; [reflexivity|]); repeat split; try reflexivity.

(** What one run of [task edit] comes to. *)
Lemma taskEdit_cases (today : string) (ser : Serializer) (core : Core)
    (loaded : option Task) (taskId : string) (options : EditOptions) :
  let out := taskEdit today ser core loaded taskId options in
  (loaded = None /\ updated out = None /\ editExitCode out = None) \/
  (loaded <> None /\ priorityRejected options /\
   updated out = None /\ editExitCode out = None) \/
  (loaded <> None /\ ~ priorityRejected options /\ dependenciesRejected options core /\
   updated out = None /\ editExitCode out = Some 1%Z) \/
  (~ priorityRejected options /\ ~ dependenciesRejected options core /\
   editExitCode out = None /\
   exists t t', loaded = Some t /\ updated out = Some t' /\
     id t' = id t /\ createdDate t' = createdDate t /\ parentTaskId t' = parentTaskId t /\
     updatedDate t' = Some today /\ labels t' = editLabels (labels t) options /\
     dependencies t' =
       (if optionTruthy (editDependencyOption options)
        then normalizeDependencies (editDependencyOption options)
        else dependencies t) /\
     priority t' =
       (if JS.truthyOpt (edit_priority options)
        then validPriority (lowerCase (default EmptyString (edit_priority options)))
        else priority t) /\
     editConsole out = [Log ("Updated task " +:+ id t)]).
Proof.
  intros out. subst out. unfold taskEdit.
  destruct loaded as [t|]; [|left; auto].
  right. unfold priorityRejected, dependenciesRejected.
  assert (Hdeps : forall (task0 : Task),
            let checked :=
              if optionTruthy (editDependencyOption options)
              then
                let '(valid, invalid) :=
                  validateDependencies
                    (normalizeDependencies (editDependencyOption options)) core in
                match invalid with
                | [] => inl (withDependencies task0 valid)
                | _ => inr invalid
                end
              else inl task0 in
            (exists invalid, checked = inr invalid /\
               optionTruthy (editDependencyOption options) = true /\
               ~ List.Forall (fun d => In d (localIds core))
                   (normalizeDependencies (editDependencyOption options))) \/
            (checked = inl (if optionTruthy (editDependencyOption options)
                            then withDependencies task0
                                   (normalizeDependencies (editDependencyOption options))
                            else task0) /\
             ~ (optionTruthy (editDependencyOption options) = true /\
                ~ List.Forall (fun d => In d (localIds core))
                    (normalizeDependencies (editDependencyOption options))))).
  { intros task0 checked. subst checked.
    destruct (optionTruthy (editDependencyOption options)) eqn:Hd;
      [|right; split; [reflexivity|intros [H _]; discriminate]].
    pose proof (validateDependencies_invalid
                  (normalizeDependencies (editDependencyOption options)) core) as Hinv.
    pose proof (validateDependencies_valid
                  (normalizeDependencies (editDependencyOption options)) core) as Hval.
    destruct (validateDependencies _ core) as [valid invalid]. cbn [fst snd] in Hinv, Hval.
    destruct invalid as [|bad invalid'].
    - right. symmetry in Hinv. apply filter_negb_nil_iff in Hinv.
      assert (Hvalid : valid = normalizeDependencies (editDependencyOption options))
        by (rewrite Hval; apply filter_all_true, Hinv).
      apply Forall_bool_decide_In in Hinv. rewrite Hvalid. split; [reflexivity|tauto].
    - left. eexists. split; [reflexivity|]. split; [reflexivity|].
      intros Hall. apply Forall_bool_decide_In, filter_negb_nil_iff in Hall. congruence. }
  fold (editDependencyOption options).
  destruct (JS.truthyOpt (edit_priority options)) eqn:Hp.
  - destruct (validPriority (lowerCase (default EmptyString (edit_priority options))))
      as [v|] eqn:Hv; [|left; split; [discriminate|]; repeat split; reflexivity].
    right.
    match goal with
    | |- context [editedTask ?a ?b ?c ?d ?e ?f ?g ?h] =>
        destruct (Hdeps (editedTask a b c d e f g h)) as [(invalid & -> & Hd & Hbad)|[-> Hok]]
    end.
    + left. split; [discriminate|]. split; [intros [_ H]; congruence|].
      split; [split; assumption|]. destruct invalid; split; reflexivity.
    + right. split; [intros [_ H]; congruence|]. split; [exact Hok|].
      destruct (optionTruthy (editDependencyOption options)); edit_written t.
  - right.
    match goal with
    | |- context [editedTask ?a ?b ?c ?d ?e ?f ?g ?h] =>
        destruct (Hdeps (editedTask a b c d e f g h)) as [(invalid & -> & Hd & Hbad)|[-> Hok]]
    end.
    + left. split; [discriminate|]. split; [intros [H _]; congruence|].
      split; [split; assumption|]. destruct invalid; split; reflexivity.
    + right. split; [intros [H _]; congruence|]. split; [exact Hok|].
      destruct (optionTruthy (editDependencyOption options)); edit_written t.
Qed.

Lemma validPriority_names (p : string) :
  match validPriority p with
  | Some v => (p = "high" /\ v = high) \/ (p = "medium" /\ v = medium) \/
              (p = "low" /\ v = low)
  | None => p <> "high" /\ p <> "medium" /\ p <> "low"
  end.
Proof.
  unfold validPriority.
  destruct (String.eqb_spec p "high") as [->|H1]; [auto|].
  destruct (String.eqb_spec p "medium") as [->|H2]; [auto|].
  destruct (String.eqb_spec p "low") as [->|H3]; [auto 6|].
  auto.
Qed.

(** X11. [task edit] hands a task to [core.updateTask] exactly when the
    task exists, the priority given (if any) is one of high, medium, low
    in any letter case, and every dependency read (if any) is the id of a
    local task or draft; the dependencies read are those of
    [--depends-on], and those of [--dep] only when [--depends-on] is not
    given.  Only rejected dependencies set the exit code to 1; an unknown
    task and an invalid priority leave it unset.  The task written keeps
    its id, creation date and parent, carries today as its updated date
    and the priority named, and its dependencies are replaced by the
    normalized ones when dependencies were read and kept otherwise. *)
Theorem taskEdit_writes_iff_accepted :
  forall (today : string) (ser : Serializer) (core : Core) (loaded : option Task)
         (taskId : string) (options : EditOptions),
    let out := taskEdit today ser core loaded taskId options in
    let priorityGiven := JS.truthyOpt (edit_priority options) in
    let name := lowerCase (default EmptyString (edit_priority options)) in
    let priorityOk :=
      priorityGiven = false \/ name = "high" \/ name = "medium" \/ name = "low" in
    let read := if optionTruthy (edit_dependsOn options)
                then edit_dependsOn options else edit_dep options in
    let deps := normalizeDependencies read in
    let depsBad :=
      optionTruthy read = true /\ ~ List.Forall (fun d => In d (localIds core)) deps in
    ((exists t', updated out = Some t') <->
     loaded <> None /\ priorityOk /\ ~ depsBad) /\
    (editExitCode out = Some 1%Z <-> loaded <> None /\ priorityOk /\ depsBad) /\
    (forall t t', loaded = Some t -> updated out = Some t' ->
       id t' = id t /\ createdDate t' = createdDate t /\
       parentTaskId t' = parentTaskId t /\ updatedDate t' = Some today /\
       labels t' = editLabels (labels t) options /\
       (priorityGiven = false -> priority t' = priority t) /\
       (priorityGiven = true ->
        (name = "high" /\ priority t' = Some high) \/
        (name = "medium" /\ priority t' = Some medium) \/
        (name = "low" /\ priority t' = Some low)) /\
       dependencies t' = (if optionTruthy read then deps else dependencies t)).
Proof.
  intros today ser core loaded taskId options. cbv zeta.
  set (out := taskEdit today ser core loaded taskId options).
  set (name := lowerCase (default EmptyString (edit_priority options))).
  set (priorityOk := JS.truthyOpt (edit_priority options) = false \/
                     name = "high" \/ name = "medium" \/ name = "low").
  set (depsBad := _ /\ ~ List.Forall _ _).
  assert (Hok : ~ priorityRejected options <-> priorityOk).
  { unfold priorityRejected, priorityOk. fold name.
    pose proof (validPriority_names name) as Hv.
    destruct (validPriority name) as [v|], (JS.truthyOpt (edit_priority options)).
    - split; [intros _; right|intros _ [_ H]; discriminate].
      destruct Hv as [[-> _]|[[-> _]|[-> _]]]; auto.
    - split; [intros _; left; reflexivity|intros _ [H _]; discriminate].
    - split; [intros Hn; exfalso; apply Hn; auto|].
      intros [H|H] _; [discriminate|tauto].
    - split; [intros _; left; reflexivity|intros _ [H _]; discriminate]. }
  assert (Hrej : priorityRejected options <-> ~ priorityOk).
  { split; [intros H Hp; apply Hok in Hp; contradiction|].
    intros Hn. unfold priorityRejected.
    destruct (JS.truthyOpt (edit_priority options)) eqn:Hg;
      [|exfalso; apply Hn; left; reflexivity].
    split; [reflexivity|]. fold name.
    destruct (validPriority name) as [v|] eqn:Hv; [|reflexivity].
    exfalso. apply Hn, Hok. unfold priorityRejected. fold name. rewrite Hv.
    intros [_ H]. discriminate. }
  assert (Hdep : dependenciesRejected options core <-> depsBad) by reflexivity.
  destruct (taskEdit_cases today ser core loaded taskId options)
    as [(Hl & Hu & He)|[(Hl & Hp & Hu & He)|[(Hl & Hp & Hd & Hu & He)|
        (Hp & Hd & He & t & t' & Hl & Hu & Hfields)]]]; fold out in Hu, He.
  - split; [split; [intros [t' H]; congruence|tauto]|].
    split; [split; [congruence|tauto]|]. intros t t' H. congruence.
  - split; [split; [intros [t' H]; congruence|tauto]|].
    split; [split; [congruence|tauto]|]. intros t t' _ H. congruence.
  - split; [split; [intros [t' H]; congruence|tauto]|].
    split; [tauto|]. intros t t' _ H. congruence.
  - split; [split; [intros _; split; [congruence|tauto]|intros _; exists t'; exact Hu]|].
    split; [split; [congruence|tauto]|].
    intros t0 t0' H0 H0'. rewrite Hl in H0. injection H0 as <-.
    rewrite Hu in H0'. injection H0' as <-.
    destruct Hfields as (H1 & H2 & H3 & H4 & H5 & H6 & H7 & _).
    repeat (split; [assumption|]). split; [|split; [|exact H6]].
    + intros Hg. rewrite H7, Hg. reflexivity.
    + intros Hg. rewrite H7, Hg. fold name.
      apply Hok in Hp. pose proof (validPriority_names name) as Hv.
      destruct (validPriority name) as [v|].
      * destruct Hv as [[Hn ->]|[[Hn ->]|[Hn ->]]]; auto.
      * destruct Hp as [Hp|Hp]; [congruence|tauto].
Qed.

(** ** Ids on the board *)

Lemma mapSet_entries {V : Type} (k k' : string) (v v' : V) (m : JsMap V) :
  In (k', v') (mapSet k v m) -> (k' = k /\ v' = v) \/ In (k', v') m.
Proof.
  induction m as [|[k0 v0] m IH]; simpl.
  - intros [[= <- <-]|[]]. left. auto.
  - destruct (String.eqb_spec k0 k) as [->|Hne]; simpl.
    + intros [[= <- <-]|H]; [left; auto|right; right; exact H].
    + intros [H|H]; [right; left; exact H|].
      destruct (IH H) as [H'|H']; [left; exact H'|right; right; exact H'].
Qed.

Lemma mapGet_In_entries {V : Type} (k : string) (v : V) (m : JsMap V) :
  mapGet k m = Some v -> In (k, v) m.
Proof.
  induction m as [|[k0 v0] m IH]; simpl; [discriminate|].
  destruct (String.eqb_spec k0 k) as [->|Hne]; [intros [= ->]; left; reflexivity|].
  intros H. right. apply IH, H.
Qed.

Lemma localTasksById_entries (l : list TaskWithMetadata) (k : string) (v : TaskWithMetadata) :
  In (k, v) (localTasksById l) -> recordId v = k.
Proof.
  induction l as [|x l IH] using rev_ind; [intros []|].
  rewrite localTasksById_snoc. intros H. apply mapSet_entries in H.
  destruct H as [[-> ->]|H]; [reflexivity|apply IH, H].
Qed.

Section MergedIds.

Variable resolver : Resolver.
Variable statusList : list string.
Variable strategy : string.
Hypothesis resolver_selects :
  forall a b res, resolver a b statusList strategy = JS.Ok res -> res = a \/ res = b.

Lemma mergeRemoteTasks_entries :
  forall (remoteTasks : list TaskWithMetadata) (m merged : JsMap TaskWithMetadata),
    (forall k v, In (k, v) m -> recordId v = k) ->
    mergeRemoteTasks resolver statusList strategy m remoteTasks = JS.Ok merged ->
    forall k v, In (k, v) merged -> recordId v = k.
Proof.
  induction remoteTasks as [|r rest IH]; intros m merged Hinv Hm.
  - simpl in Hm. injection Hm as <-. exact Hinv.
  - simpl in Hm. unfold mergeRemoteTask in Hm.
    destruct (mapGet (id (task r)) m) as [existing|] eqn:Hget.
    + destruct (resolver existing r statusList strategy) as [res|e] eqn:Hres;
        simpl in Hm; [|discriminate].
      eapply IH; [|exact Hm].
      intros k v H. apply mapSet_entries in H. destruct H as [[-> ->]|H]; [|apply Hinv, H].
      destruct (resolver_selects _ _ _ Hres) as [->| ->]; [|reflexivity].
      apply Hinv, mapGet_In_entries, Hget.
    + simpl in Hm. eapply IH; [|exact Hm].
      intros k v H. apply mapSet_entries in H.
      destruct H as [[-> ->]|H]; [reflexivity|apply Hinv, H].
Qed.

End MergedIds.

Lemma mergeRemoteTasks_keys (resolver : Resolver) (statusList : list string)
    (strategy : string) :
  forall (remoteTasks : list TaskWithMetadata) (m merged : JsMap TaskWithMetadata)
         (seen : list string),
    mapKeys m = firstSeen seen ->
    mergeRemoteTasks resolver statusList strategy m remoteTasks = JS.Ok merged ->
    mapKeys merged = firstSeen (seen ++ map recordId remoteTasks).
Proof.
  induction remoteTasks as [|r rest IH]; intros m merged seen Hkeys Hm.
  - simpl in Hm. injection Hm as <-. rewrite app_nil_r. exact Hkeys.
  - simpl in Hm.
    assert (Hstep : forall v, mapKeys (mapSet (id (task r)) v m) =
                              firstSeen ((seen ++ [recordId r]))).
    { intros v. rewrite mapKeys_mapSet, firstSeen_snoc, mapHas_includes, Hkeys,
        includes_firstSeen. reflexivity. }
    unfold mergeRemoteTask in Hm.
    destruct (mapGet (id (task r)) m) as [existing|].
    + destruct (resolver existing r statusList strategy) as [res|e]; simpl in Hm;
        [|discriminate].
      rewrite (IH _ _ _ (Hstep res) Hm), <- app_assoc. reflexivity.
    + simpl in Hm. rewrite (IH _ _ _ (Hstep r) Hm), <- app_assoc. reflexivity.
Qed.

Lemma entries_ids_are_keys (m : JsMap TaskWithMetadata) :
  (forall k v, In (k, v) m -> recordId v = k) ->
  map recordId (mapValues m) = mapKeys m.
Proof.
  unfold mapValues, mapKeys. induction m as [|[k v] m IH]; intros Hinv; [reflexivity|].
  simpl. rewrite (Hinv k v (or_introl eq_refl)), IH; [reflexivity|].
  intros k' v' H. apply Hinv. right. exact H.
Qed.

Lemma NoDup_map_filter {A B : Type} (f : A -> B) (p : A -> bool) (l : list A) :
  List.NoDup (map f l) -> List.NoDup (map f (List.filter p l)).
Proof.
  induction l as [|a l IH]; simpl; intros Hnd; [constructor|].
  inversion Hnd as [|x xs Hnot Hrest]; subst.
  destruct (p a); simpl; [|apply IH, Hrest].
  constructor; [|apply IH, Hrest].
  intros Hin. apply Hnot. apply in_map_iff in Hin. destruct Hin as (y & Hy & Hin).
  apply filter_In in Hin. apply in_map_iff. exists y. tauto.
Qed.

(** X12. Provided the conflict resolver returns one of the two records it
    is given, the merge of local and remote tasks keeps one record per id,
    in the order in which the ids first occur among the local tasks and
    then among the remote ones, and the board, a sub-sequence of it, never
    shows two records with the same id. *)
Theorem board_has_one_record_per_id :
  forall (resolver : Resolver) (config : option BacklogConfig)
         (localTasks remoteTasks : list TaskWithMetadata)
         (obs : list LatestLocationResolver.LocationObservation)
         (options : BoardOptions) (out : BoardOutput),
    (forall a b res,
       resolver a b (configStatuses config) (configStrategy config) = JS.Ok res ->
       res = a \/ res = b) ->
    handleBoardView resolver config localTasks remoteTasks obs options = JS.Ok out ->
    exists tasksById,
      mergeRemoteTasks resolver (configStatuses config) (configStrategy config)
        (localTasksById localTasks) remoteTasks = JS.Ok tasksById /\
      map recordId (mapValues tasksById) =
        firstSeen (map recordId localTasks ++ map recordId remoteTasks) /\
      sublist (boardTasks out) (mapValues tasksById) /\
      List.NoDup (map recordId (boardTasks out)).
Proof.
  intros resolver config localTasks remoteTasks obs options out Hsel Hout.
  pose proof (handleBoardView_tasks resolver config localTasks remoteTasks obs options) as H.
  destruct (mergeRemoteTasks _ _ _ _ _) as [tasksById|e] eqn:Hm; [|congruence].
  destruct H as (out' & Hout' & Hboard). rewrite Hout in Hout'. injection Hout' as <-.
  exists tasksById. split; [reflexivity|].
  assert (Hids : map recordId (mapValues tasksById) =
                 firstSeen (map recordId localTasks ++ map recordId remoteTasks)).
  { rewrite entries_ids_are_keys.
    - eapply mergeRemoteTasks_keys; [|exact Hm]. apply localTasksById_keys.
    - eapply mergeRemoteTasks_entries; [exact Hsel| |exact Hm].
      apply localTasksById_entries. }
  split; [exact Hids|]. rewrite Hboard. split; [apply filter_sublist|].
  apply NoDup_map_filter. rewrite Hids. apply firstSeen_NoDup.
Qed.

Lemma board_has_one_record_per_id_witness :
  List.NoDup
    (map recordId
       (boardTasks
          (RenderBoard [sampleRecord "task-1" "Done" None]
             ["To Do"; "In Progress"; "Done"] "horizontal" 20))).
Proof.
  destruct (board_has_one_record_per_id resolveTaskConflict (strategyConfig None)
              [sampleRecord "task-1" "To Do" None] [sampleRecord "task-1" "Done" None]
              liveObservations defaultBoardOptions
              (RenderBoard [sampleRecord "task-1" "Done" None]
                 ["To Do"; "In Progress"; "Done"] "horizontal" 20))
    as (tasksById & _ & _ & _ & Hnd).
  - intros a b res Hres.
    pose proof (resolveTaskConflict_selects a b
                  (configStatuses (strategyConfig None))
                  (configStrategy (strategyConfig None))) as H.
    rewrite Hres in H. tauto.
  - vm_compute. reflexivity.
  - exact Hnd.
Defined.

(** ** The plain task list *)

Lemma orderedStatuses_covers (statusOrder : list string) (filtered : list Task) (t : Task) :
  In t filtered -> In (status t) (orderedStatuses statusOrder (groupByStatus filtered)).
Proof.
  intros Ht. rewrite orderedStatuses_spec, in_app_iff, !filter_In, firstSeen_In.
  assert (Hs : In (status t) (map status filtered)) by (apply in_map, Ht).
  destruct (includes statusOrder (status t)) eqn:E.
  - left. split; [apply includes_In, E|apply includes_In, Hs].
  - right. split; [exact Hs|reflexivity].
Qed.

Lemma listGroups_In (config : option BacklogConfig) (filtered : list Task) (t : Task) :
  In t (concat (map snd (listGroups config filtered))) <-> In t filtered.
Proof.
  rewrite listGroups_map, concat_groups, in_flat_map. unfold groupOf. split.
  - intros (s & _ & Hin). apply filter_In in Hin. tauto.
  - intros Ht. exists (status t). split; [apply orderedStatuses_covers, Ht|].
    apply filter_In. split; [exact Ht|apply String.eqb_refl].
Qed.

Lemma taskListPlain_lines (config : option BacklogConfig) (filtered : list Task) (t : Task) :
  In t filtered -> In (taskLine t) (taskListPlain config filtered).
Proof.
  intros Ht. unfold taskListPlain. destruct filtered as [|t0 rest] eqn:E; [destruct Ht|].
  rewrite <- E in *. apply in_flat_map.
  exists (status t, groupOf filtered (status t)). split.
  - rewrite listGroups_map. apply in_map_iff. exists (status t).
    split; [reflexivity|apply orderedStatuses_covers, Ht].
  - unfold printGroup. right. apply in_or_app. left. cbn [snd].
    apply (in_map (fun t => Log ("  " +:+ id t +:+ " - " +:+ title t))).
    unfold groupOf. apply filter_In. split; [exact Ht|apply String.eqb_refl].
Qed.

Lemma taskListFilter_In (options : ListOptions) (tasks : list Task) (t : Task) :
  In t (taskListFilter options tasks) <-> In t tasks /\ passesFilters options t.
Proof.
  unfold taskListFilter, passesFilters.
  destruct (JS.truthyOpt (list_status options)), (JS.truthyOpt (list_assignee options));
    rewrite ?filter_In, ?String.eqb_eq, ?includes_In; intuition congruence.
Qed.

(** X13. [task list --plain] shows a task, in one of its groups and with
    its own line, exactly when the task passes both filters: its status
    equals the [--status] given up to letter case, and the [--assignee]
    given is among its assignees.  This holds whatever the configured
    statuses are; the message "No tasks found." is printed exactly when no
    task passes. *)
Theorem task_list_shows_filtered_tasks :
  forall (config : option BacklogConfig) (options : ListOptions) (tasks : list Task),
    (forall t, In t (concat (map snd (listGroups config (taskListFilter options tasks)))) <->
               In t tasks /\ passesFilters options t) /\
    (forall t, In t tasks -> passesFilters options t ->
               In (taskLine t) (taskListCommand config options tasks)) /\
    (taskListCommand config options tasks = [Log "No tasks found."] <->
     forall t, In t tasks -> ~ passesFilters options t) /\
    sublist (taskListFilter options tasks) tasks.
Proof.
  intros config options tasks.
  split; [intros t; rewrite listGroups_In; apply taskListFilter_In|].
  split.
  { intros t Ht Hpass. apply taskListPlain_lines, taskListFilter_In. auto. }
  split.
  - unfold taskListCommand. split.
    + intros Hout t Ht Hpass.
      assert (Hin : In t (taskListFilter options tasks)) by (apply taskListFilter_In; auto).
      apply (taskListPlain_lines config) in Hin. rewrite Hout in Hin.
      destruct Hin as [H|[]]. discriminate H.
    + intros Hnone. destruct (taskListFilter options tasks) as [|t rest] eqn:E;
        [reflexivity|].
      exfalso. assert (Hin : In t (taskListFilter options tasks)) by (rewrite E; left; reflexivity).
      apply taskListFilter_In in Hin. destruct Hin as [Hin Hpass].
      exact (Hnone t Hin Hpass).
  - unfold taskListFilter.
    destruct (JS.truthyOpt (list_status options)), (JS.truthyOpt (list_assignee options));
      try reflexivity; try apply filter_sublist.
    etransitivity; apply filter_sublist.
Qed.

(** ** Finding the file of a task *)

Lemma startsWith_inv (s p : string) :
  JS.startsWith s p = true -> exists rest, s = p +:+ rest.
Proof.
  unfold JS.startsWith. revert s. induction p as [|a p IH]; intros s H.
  - exists s. reflexivity.
  - destruct s as [|b s]; [discriminate H|].
    change (String.prefix (String a p) (String b s))
      with (if ascii_dec a b then String.prefix p s else false) in H.
    destruct (ascii_dec a b) as [<-|]; [|discriminate H].
    destruct (IH s H) as [rest ->]. exists rest. reflexivity.
Qed.

Lemma matchTaskFile_named (m rest : string) :
  m <> EmptyString -> allChars JS.isDigitOrDot m = true ->
  JS.takeWhile JS.isDigitOrDot rest = EmptyString ->
  matchTaskFile ("task-" +:+ m +:+ rest) = Some m.
Proof.
  intros Hne Hall Hrest. rewrite matchTaskFile_unfold.
  assert (Hrun : runAtStart ("task-" +:+ m +:+ rest) = m).
  { unfold runAtStart. rewrite startsWith_app.
    change 5 with (String.length "task-"). rewrite slice_app.
    apply takeWhile_app_stop; assumption. }
  rewrite Hrun. destruct m; [congruence|reflexivity].
Qed.

Lemma digitsOrDots_no_prefix (m : string) :
  m <> EmptyString -> allChars JS.isDigitOrDot m = true ->
  JS.startsWith m "task-" = false.
Proof.
  intros Hne Hall. destruct (JS.startsWith m "task-") eqn:Hpre; [|reflexivity].
  apply startsWith_inv in Hpre. destruct Hpre as [rest ->]. discriminate Hall.
Qed.

(** X14. For a task id [task-<m>], with [m] a run of digits and dots, the
    file [task view] opens is a listed file whose name the id pattern
    of the allocator reads as this very id, so never the file of another
    task such as [task-<m>0]; when no file is found, no listed file name
    starts with the id followed by [ -].  Giving the id without its
    [task-] prefix finds the same file. *)
Theorem findTaskFile_opens_the_named_task :
  forall (files : list string) (m : string),
    m <> EmptyString -> allChars JS.isDigitOrDot m = true ->
    match findTaskFile files ("task-" +:+ m) with
    | Some f => In f files /\ branchFileId f = Some ("task-" +:+ m)
    | None => forall f, In f files -> JS.startsWith f ("task-" +:+ m +:+ " -") = false
    end /\
    findTaskFile files m = findTaskFile files ("task-" +:+ m).
Proof.
  intros files m Hne Hall. split.
  - unfold findTaskFile. rewrite startsWith_app.
    destruct (List.find _ files) as [f|] eqn:Hfind.
    + apply find_some in Hfind. destruct Hfind as [Hin Hpre]. split; [exact Hin|].
      apply startsWith_inv in Hpre. destruct Hpre as [rest ->].
      unfold branchFileId. rewrite !string_app_assoc.
      rewrite (matchTaskFile_named m (" -" +:+ rest)); [reflexivity|assumption..|reflexivity].
    + intros f Hf.
      pose proof (find_none _ _ Hfind f Hf) as H. rewrite string_app_assoc in H. exact H.
  - unfold findTaskFile.
    rewrite (digitsOrDots_no_prefix m Hne Hall), startsWith_app. reflexivity.
Qed.

Lemma findTaskFile_opens_the_named_task_witness :
  findTaskFile ["task-10 - Ten.md"; "task-1 - One.md"] "1" =
  findTaskFile ["task-10 - Ten.md"; "task-1 - One.md"] "task-1".
Proof.
  apply (findTaskFile_opens_the_named_task ["task-10 - Ten.md"; "task-1 - One.md"] "1").
  - discriminate.
  - reflexivity.
Defined.

(** ** The editor *)

(** X15. [openFileInEditor] spawns an editor exactly when one of
    BACKLOG_EDITOR, VISUAL and EDITOR is set to a non-empty value: it then
    spawns once, the first such value in this order with the file path as
    its only argument, and ends as the spawn does, so that an editor that
    cannot be started makes it throw the spawn's error.  A variable set to
    the empty string counts as unset; with none set it spawns nothing and
    throws. *)
Theorem openFileInEditor_precedence :
  forall (env : EditorEnv) (spawn : list string -> JS.Result unit) (filePath : string),
    let spawned := fst (openFileInEditor env spawn filePath) in
    let result := snd (openFileInEditor env spawn filePath) in
    (spawned = [] /\
     result = JS.Throw "No editor configured. Set BACKLOG_EDITOR, VISUAL or EDITOR" /\
     JS.truthyOpt (env_BACKLOG_EDITOR env) = false /\
     JS.truthyOpt (env_VISUAL env) = false /\
     JS.truthyOpt (env_EDITOR env) = false) \/
    (exists editor,
       spawned = [[editor; filePath]] /\
       result = spawn [editor; filePath] /\
       editor <> EmptyString /\
       ((env_BACKLOG_EDITOR env = Some editor) \/
        (JS.truthyOpt (env_BACKLOG_EDITOR env) = false /\
         env_VISUAL env = Some editor) \/
        (JS.truthyOpt (env_BACKLOG_EDITOR env) = false /\
         JS.truthyOpt (env_VISUAL env) = false /\
         env_EDITOR env = Some editor))).
Proof.
  intros [b v e] spawn filePath. unfold openFileInEditor, envOr. simpl.
  destruct b as [[|cb sb]|]; simpl;
    try (right; eexists; split; [reflexivity|]; split; [reflexivity|];
         split; [discriminate|]; left; reflexivity);
    (destruct v as [[|cv sv]|]; simpl;
     try (right; eexists; split; [reflexivity|]; split; [reflexivity|];
          split; [discriminate|]; right; left; split; reflexivity);
     (destruct e as [[|ce se]|]; simpl;
      try (right; eexists; split; [reflexivity|]; split; [reflexivity|];
           split; [discriminate|]; right; right; repeat split; reflexivity);
      left; repeat split; reflexivity)).
Qed.

(** ** Exporting the board *)

(** X16. [board export] writes exactly the tasks [board view] shows, under
    the same statuses, and fails exactly when the view fails, with the
    same error; unlike the view it still writes when no task is live.  The
    file argument wins over [--output], which wins over the default
    README.md, and the title is added only when the export goes to that
    default. *)
Theorem boardExport_agrees_with_view :
  forall (resolver : Resolver) (config : option BacklogConfig)
         (localTasks remoteTasks : list TaskWithMetadata)
         (obs : list LatestLocationResolver.LocationObservation)
         (options : BoardOptions) (pathJoin : string -> string -> string)
         (cwd : string) (filename output : option string),
    match boardExport resolver config localTasks remoteTasks obs pathJoin cwd filename output,
          handleBoardView resolver config localTasks remoteTasks obs options with
    | JS.Ok (call, printed), JS.Ok out =>
        export_tasks call = boardTasks out /\
        export_statuses call = configStatuses config /\
        printed = [Log ("Exported board to " +:+ export_path call)] /\
        (export_addTitle call = true -> export_path call = pathJoin cwd "README.md") /\
        (forall name, filename = Some name -> name <> EmptyString ->
                      export_path call = pathJoin cwd name /\ export_addTitle call = false) /\
        (forall name, JS.truthyOpt filename = false -> output = Some name ->
                      name <> EmptyString ->
                      export_path call = pathJoin cwd name /\ export_addTitle call = false)
    | JS.Throw e, JS.Throw e' => e = e'
    | _, _ => False
    end.
Proof.
  intros resolver config localTasks remoteTasks obs options pathJoin cwd filename output.
  pose proof (handleBoardView_tasks resolver config localTasks remoteTasks obs options) as H.
  unfold boardExport.
  destruct (mergeRemoteTasks _ _ _ _ _) as [tasksById|e]; simpl.
  - destruct H as (out & -> & Hout). split; [symmetry; exact Hout|].
    split; [reflexivity|]. split; [reflexivity|]. split.
    + intros Htitle. apply andb_true_iff in Htitle. destruct Htitle as [Hf Ho].
      apply negb_true_iff in Hf, Ho. unfold envOr. rewrite Hf, Ho. reflexivity.
    + split.
      * intros name -> Hne. apply truthy_true_iff in Hne. unfold envOr. simpl.
        rewrite Hne. split; reflexivity.
      * intros name Hf -> Hne. apply truthy_true_iff in Hne. unfold envOr. simpl.
        rewrite Hf, Hne. simpl. split; reflexivity.
  - rewrite H. reflexivity.
Qed.
